(** * Asset-identity resolution and Ethereum name store

    A shallow embedding of two reactive stores of the frontend:
    - [useAssetInfoRetrieval] (store 'assets/infoRetrievals'): the association
      resolver and the asset info resolver;
    - [useEthNamesStore] (store 'ethNames'): the ENS worklist, the two
      address-book mirrors and the derived address -> name mapping.

    Reactive projections ([computed]) are embedded as pure functions of a
    snapshot of the refs they read.  Asynchronous store actions are embedded
    in a state-and-exception monad over the store, the backend and the
    observable effects (backend calls, log, notifications). *)

From Stdlib Require Import Ascii String.
From stdpp Require Import gmap strings list.

Local Open Scope string_scope.
Local Open Scope list_scope.

(** ** JavaScript operators used by the stores *)

Module Js.

(** Truthiness of a [string | undefined | null] value: only a non-empty
    string is truthy. *)
Definition truthy (v : option string) : bool :=
  match v with
  | Some s => negb (String.eqb s "")
  | None => false
  end.

(** [a || b] on possibly-missing strings. *)
Definition or (a b : option string) : option string :=
  if truthy a then a else b.

(** [a ?? b]. *)
Definition nullish {A} (a : option A) (b : A) : A :=
  match a with
  | Some x => x
  | None => b
  end.

(** Outcome of evaluating an expression that may raise. *)
Inductive completion (E A : Type) : Type :=
| Normal (a : A)
| Throw (e : E).
Global Arguments Normal {E A} a.
Global Arguments Throw {E A} e.

(** What a property read [object[key]] yields on a plain object whose own
    properties hold strings: a string, or the function or object that
    [Object.prototype] provides under that name. *)
Inductive Value : Type :=
| Str (s : string)
| Inherited (property : string).

(** The property names a plain object inherits from [Object.prototype]. *)
Definition objectPrototypeKeys : list string :=
  ["constructor"; "__defineGetter__"; "__defineSetter__"; "hasOwnProperty";
   "__lookupGetter__"; "__lookupSetter__"; "isPrototypeOf";
   "propertyIsEnumerable"; "toString"; "valueOf"; "__proto__";
   "toLocaleString"].

(** [object[key]] on a plain object with the own properties [own]: an own
    property shadows an inherited one; [None] is [undefined]. *)
Definition objectGet (own : gmap string string) (key : string)
  : option Value :=
  match own !! key with
  | Some v => Some (Str v)
  | None =>
    if bool_decide (key ∈ objectPrototypeKeys)
    then Some (Inherited key)
    else None
  end.

(** [array.indexOf(value)], scanning from position [i]; [-1] when the value
    does not occur. *)
Fixpoint indexOfFrom (value : string) (rest : list string) (i : nat) : Z :=
  match rest with
  | [] => (-1)%Z
  | x :: rest' =>
    if decide (x = value) then Z.of_nat i else indexOfFrom value rest' (S i)
  end.

Definition indexOf (value : string) (array : list string) : Z :=
  indexOfFrom value array 0.

(** [array.filter(callback)], the callback receiving the element, its
    index and the whole array. *)
Fixpoint filterFrom {A} (callback : A → nat → list A → bool)
    (array : list A) (i : nat) (rest : list A) : list A :=
  match rest with
  | [] => []
  | x :: rest' =>
    if callback x i array
    then x :: filterFrom callback array (S i) rest'
    else filterFrom callback array (S i) rest'
  end.

Definition filter {A} (callback : A → nat → list A → bool)
    (array : list A) : list A :=
  filterFrom callback array 0 array.

End Js.

(** ** store/assets/info: [useAssetInfoRetrieval] *)

Module AssetInfoRetrieval.

(** Modelled from the spec: the [AssetInfo] type of '@rotki/common/lib/data'
    is imported by the store but not part of the sources; the fields are the
    ones listed in the data model, each of them possibly missing on a cached
    record. *)
Record AssetInfo : Type := mkAssetInfo {
  identifier : option string;
  name : option string;
  symbol : option string;
  isCustomAsset : option bool;
  customAssetType : option string;
  collectionId : option string;
  assetType : option string
}.

(** Modelled from the spec: an entry of the fetched-collections mapping of
    the asset cache store (not part of the sources) carries the
    collection-level name and symbol. *)
Record AssetCollection : Type := mkAssetCollection {
  collectionName : option string;
  collectionSymbol : option string
}.

(** The spread [{...data}] of a possibly-null record. *)
Definition emptyInfo : AssetInfo :=
  mkAssetInfo None None None None None None None.

Definition spread (data : option AssetInfo) : AssetInfo :=
  Js.nullish data emptyInfo.

(** Snapshot of the reactive state the projections read: the
    [treatEth2AsEth] general setting and, from the asset cache store,
    [isPending], [retrieve] and [fetchedAssetCollections].  [retrieve] is
    handed whatever the association lookup yields, a string or an inherited
    member. *)
Record Refs : Type := mkRefs {
  treatEth2AsEth : bool;
  isPending : string → bool;
  retrieve : Js.Value → option AssetInfo;
  fetchedAssetCollections : gmap string AssetCollection
}.

Inductive TypeError : Type := ReadPropertyOfNull.

(** The identifier classifier of '@/utils/assets' and the constant of
    '@/services/assets/consts' are imported, not defined, by the store: the
    store is embedded over any implementation of them.
    [getAddressFromEvmIdentifier] is handed identifiers and association
    lookups alike. *)
Class Imports : Type := {
  isEvmIdentifier : string → bool;
  getAddressFromEvmIdentifier : Js.Value → string;
  CUSTOM_ASSET : string
}.

Section Store.

Context `{imports : Imports}.

(** The own properties of the association object, a plain object literal
    [{}] that is assigned [ETH2] when the setting is on. *)
Definition assetAssociationMap (refs : Refs) : gmap string string :=
  let associationMap : gmap string string := ∅ in
  if treatEth2AsEth refs
  then <["ETH2" := "ETH"]> associationMap
  else associationMap.

(** [get(assetAssociationMap)[identifier] ?? identifier]: a property read
    on the plain object, inherited members included. *)
Definition getAssociatedAssetIdentifier (refs : Refs) (identifier : string)
  : Js.Value :=
  Js.nullish (Js.objectGet (assetAssociationMap refs) identifier)
    (Js.Str identifier).

Definition getAssetNameFallback (id : string) : string :=
  if isEvmIdentifier id
  then
    let address := getAddressFromEvmIdentifier (Js.Str id) in
    "EVM Token: " +:+ address
  else "".

(** [data?.isCustomAsset || data?.assetType === CUSTOM_ASSET] *)
Definition customFlag (data : option AssetInfo) : bool :=
  match data ≫= isCustomAsset with
  | Some true => true
  | _ => bool_decide (data ≫= assetType = Some CUSTOM_ASSET)
  end.

(** The collection record consulted for the overrides:
    [get(isCollectionParent) && data?.collectionId
       ? get(fetchedAssetCollections)[data.collectionId] : null] *)
Definition collectionDataOf (refs : Refs) (isCollectionParent : bool)
    (data : option AssetInfo) : option AssetCollection :=
  if isCollectionParent && Js.truthy (data ≫= collectionId)
  then (data ≫= collectionId) ≫= λ cid, fetchedAssetCollections refs !! cid
  else None.

Definition assetInfo (refs : Refs) (identifierRef : option string)
    (enableAssociation isCollectionParent : bool)
  : Js.completion TypeError (option AssetInfo) :=
  match identifierRef with
  | None => Js.Normal None
  | Some id =>
    if String.eqb id "" then Js.Normal None
    else if isPending refs id then Js.Normal None
    else
      let key :=
        if enableAssociation
        then getAssociatedAssetIdentifier refs id
        else Js.Str id in
      let data := retrieve refs key in
      let isCustomAsset' := customFlag data in
      if isCustomAsset' then
        match data with
        | None => Js.Throw ReadPropertyOfNull
        | Some d =>
          Js.Normal (Some (mkAssetInfo
            d.(identifier) d.(name) d.(name) (Some isCustomAsset')
            d.(customAssetType) d.(collectionId) d.(assetType)))
        end
      else
        let collectionData :=
          collectionDataOf refs isCollectionParent data in
        let name' :=
          Js.or (Js.or (collectionData ≫= collectionName) (data ≫= name))
                (Some (getAssetNameFallback id)) in
        let symbol' :=
          Js.or (Js.or (collectionData ≫= collectionSymbol)
                       (data ≫= symbol))
                (Some (getAssetNameFallback id)) in
        let base := spread data in
        Js.Normal (Some (mkAssetInfo
          base.(identifier) name' symbol' (Some isCustomAsset')
          base.(customAssetType) base.(collectionId) base.(assetType)))
  end.

(** The single-field projections. *)
Definition infoField (f : AssetInfo → option string)
    (r : Js.completion TypeError (option AssetInfo))
  : Js.completion TypeError string :=
  match r with
  | Js.Throw e => Js.Throw e
  | Js.Normal info =>
    Js.Normal (Js.nullish (Js.or (info ≫= f) None) "")
  end.

Definition assetSymbol (refs : Refs) (identifierRef : option string)
    (enableAssociation : bool) : Js.completion TypeError string :=
  match identifierRef with
  | None => Js.Normal ""
  | Some id =>
    if String.eqb id "" then Js.Normal ""
    else infoField symbol (assetInfo refs (Some id) enableAssociation true)
  end.

Definition assetName (refs : Refs) (identifierRef : option string)
    (enableAssociation : bool) : Js.completion TypeError string :=
  match identifierRef with
  | None => Js.Normal ""
  | Some id =>
    if String.eqb id "" then Js.Normal ""
    else infoField name (assetInfo refs (Some id) enableAssociation true)
  end.

Definition tokenAddress (refs : Refs) (identifierRef : option string)
    (enableAssociation : bool) : string :=
  match identifierRef with
  | None => ""
  | Some id =>
    if String.eqb id "" then ""
    else
      let key :=
        if enableAssociation
        then getAssociatedAssetIdentifier refs id
        else Js.Str id in
      getAddressFromEvmIdentifier key
  end.

End Store.

End AssetInfoRetrieval.

(** ** The resolution rules, as the specification words them *)

Module AssetInfoSpec.

Import AssetInfoRetrieval.

(** A value counts as present when it is a non-empty string. *)
Definition present (v : option string) : Prop := ∃ s, v = Some s ∧ s ≠ "".

(** [result] is the first present value among [override] and [raw], and
    the synthesized [fallback] when neither is present. *)
Definition firstOf (override raw : option string) (fallback : string)
    (result : option string) : Prop :=
  (present override ∧ result = override)
  ∨ (¬ present override ∧ present raw ∧ result = raw)
  ∨ (¬ present override ∧ ¬ present raw ∧ result = Some fallback).

Definition withCollections (refs : Refs)
    (collections : gmap string AssetCollection) : Refs :=
  mkRefs (treatEth2AsEth refs) (isPending refs) (retrieve refs) collections.

Definition withPending (refs : Refs) (pending : string → bool) : Refs :=
  mkRefs (treatEth2AsEth refs) pending (retrieve refs)
    (fetchedAssetCollections refs).

Section Rules.

Context `{imports : Imports}.

(** The key under which the cache is read. *)
Definition keyOf (refs : Refs) (id : string) (enableAssociation : bool)
  : Js.Value :=
  if enableAssociation then getAssociatedAssetIdentifier refs id
  else Js.Str id.

(** The synthesized fallback, as the specification words it. *)
Definition fallbackFor (id : string) (fallback : string) : Prop :=
  (isEvmIdentifier id = true
   ∧ fallback = "EVM Token: " +:+ getAddressFromEvmIdentifier (Js.Str id))
  ∨ (isEvmIdentifier id = false ∧ fallback = "").

(** Name and symbol of the resolved record follow the three-level
    chain. *)
Definition followsFallbackChain (refs : Refs) (id : string)
    (enableAssociation isCollectionParent : bool) : Prop :=
  ∃ r fallback,
    assetInfo refs (Some id) enableAssociation isCollectionParent
      = Js.Normal (Some r)
    ∧ fallbackFor id fallback
    ∧ let data := retrieve refs (keyOf refs id enableAssociation) in
      let override := collectionDataOf refs isCollectionParent data in
      firstOf (override ≫= collectionName) (data ≫= name) fallback
        (name r)
      ∧ firstOf (override ≫= collectionSymbol) (data ≫= symbol) fallback
          (symbol r).

End Rules.

End AssetInfoSpec.

(** ** store/balances/ethereum-names: [useEthNamesStore] *)

Module EthNamesStore.

Inductive EthAddressBookLocation : Type := global | private.

Record EthNamesEntry : Type := mkEntry {
  address : string;
  entryName : string
}.

(** Values raised by a rejected backend promise: an [Error] with a
    message, a bare string, or a nullish value. *)
Inductive Thrown : Type :=
| ThrownError (message : string)
| ThrownString (value : string)
| ThrownNullish.

(** [e?.message ?? e ?? ''] *)
Definition messageOf (e : Thrown) : string :=
  match e with
  | ThrownError message => message
  | ThrownString value => value
  | ThrownNullish => ""
  end.

(** Modelled from the spec: [uniqueStrings] of '@/utils/data' is imported
    by the store but not part of the sources; as a [filter] callback it
    deduplicates, keeping an element exactly at its first position. *)
Definition uniqueStrings (value : string) (index : nat)
    (array : list string) : bool :=
  bool_decide (Js.indexOf value array = Z.of_nat index).

(** The refs of the store. *)
Record Store : Type := mkStore {
  ensAddresses : list string;
  ethNames : gmap string string;
  ethAddressBookGlobal : list EthNamesEntry;
  ethAddressBookPrivate : list EthNamesEntry
}.

Definition initialStore : Store := mkStore [] ∅ [] [].

(** Requests issued to the backend, in the order they are made. *)
Inductive Call : Type :=
| GetEnsNames (addresses : list string)
| GetEnsNamesTask (addresses : list string)
| AwaitTask (taskId : nat)
| GetEthNames (addresses : list string)
| GetEthAddressBook (location : EthAddressBookLocation)
    (addresses : option (list string))
| AddAddressBook (location : EthAddressBookLocation)
    (entries : list EthNamesEntry)
| UpdateAddressBook (location : EthAddressBookLocation)
    (entries : list EthNamesEntry)
| DeleteAddressBook (location : EthAddressBookLocation)
    (addresses : list string).

(** A translated text: the i18n key and the [message] parameter. *)
Record Notification : Type := mkNotification {
  title : string;
  messageKey : string;
  messageParam : string;
  display : bool
}.

(** The imports of the store: [isValidEthAddress] of '@/utils/text' and the
    backend behind [useEthNamesApi] and [useTasks].  The backend is a state
    machine over an arbitrary state [B]; every request either resolves with
    a value or rejects with a thrown value. *)
Class Imports (B : Type) : Type := {
  isValidEthAddress : string → bool;
  getEnsNames : list string → B → B * Js.completion Thrown unit;
  getEnsNamesTask : list string → B → B * Js.completion Thrown nat;
  awaitTask : nat → B → B * Js.completion Thrown unit;
  getEthNames :
    list string → B → B * Js.completion Thrown (gmap string string);
  getEthAddressBook :
    EthAddressBookLocation → option (list string) → B →
    B * Js.completion Thrown (list EthNamesEntry);
  addAddressBook :
    EthAddressBookLocation → list EthNamesEntry → B →
    B * Js.completion Thrown bool;
  updateAddressBook :
    EthAddressBookLocation → list EthNamesEntry → B →
    B * Js.completion Thrown bool;
  deleteAddressBook :
    EthAddressBookLocation → list string → B →
    B * Js.completion Thrown bool
}.

(** Everything an action can read or affect. *)
Record World (B : Type) : Type := mkWorld {
  store : Store;
  backend : B;
  calls : list Call;
  logged : list Thrown;
  notifications : list Notification
}.
Global Arguments mkWorld {B} _ _ _ _ _.
Global Arguments store {B} _.
Global Arguments backend {B} _.
Global Arguments calls {B} _.
Global Arguments logged {B} _.
Global Arguments notifications {B} _.

Definition initialWorld {B} (b : B) : World B :=
  mkWorld initialStore b [] [] [].

(** An asynchronous action, run to completion: it transforms the world and
    either resolves with a value or rejects. *)
Definition Action (B A : Type) : Type :=
  World B → World B * Js.completion Thrown A.

Section Monad.

Context {B : Type}.

Definition ret {A} (a : A) : Action B A := λ w, (w, Js.Normal a).

Definition bind {A A'} (m : Action B A) (k : A → Action B A')
  : Action B A' :=
  λ w,
    match m w with
    | (w', Js.Normal a) => k a w'
    | (w', Js.Throw e) => (w', Js.Throw e)
    end.

(** [try { body } catch (e) { handler(e) }] *)
Definition tryCatch {A} (body : Action B A) (handler : Thrown → Action B A)
  : Action B A :=
  λ w,
    match body w with
    | (w', Js.Normal a) => (w', Js.Normal a)
    | (w', Js.Throw e) => handler e w'
    end.

Definition getStore : Action B Store := λ w, (w, Js.Normal (store w)).

Definition setStore (s : Store) : Action B unit :=
  λ w,
    (mkWorld s (backend w) (calls w) (logged w) (notifications w),
     Js.Normal tt).

(** [await request(...)]: the request is recorded, then answered by the
    backend. *)
Definition request {A} (c : Call) (f : B → B * Js.completion Thrown A)
  : Action B A :=
  λ w,
    let (b', r) := f (backend w) in
    (mkWorld (store w) b' (calls w ++ [c]) (logged w) (notifications w), r).

Definition loggerError (e : Thrown) : Action B unit :=
  λ w,
    (mkWorld (store w) (backend w) (calls w) (logged w ++ [e])
       (notifications w),
     Js.Normal tt).

Definition notify (n : Notification) : Action B unit :=
  λ w,
    (mkWorld (store w) (backend w) (calls w) (logged w)
       (notifications w ++ [n]),
     Js.Normal tt).

End Monad.

Declare Scope action_scope.
Delimit Scope action_scope with action.
Notation "'let!' x := m 'in' k" := (bind m (λ x, k))
  (at level 10, x name, m at level 100, k at level 200) : action_scope.
Notation "m ';;;' k" := (bind m (λ _, k))
  (at level 100, k at level 200, right associativity) : action_scope.

Section Actions.

Context {B : Type} `{imports : Imports B}.

Local Open Scope action_scope.

Definition setEnsAddresses (v : list string) : Action B unit :=
  let! s := getStore in
  setStore (mkStore v (ethNames s) (ethAddressBookGlobal s)
              (ethAddressBookPrivate s)).

Definition setEthNames (v : gmap string string) : Action B unit :=
  let! s := getStore in
  setStore (mkStore (ensAddresses s) v (ethAddressBookGlobal s)
              (ethAddressBookPrivate s)).

Definition setEthAddressBookGlobal (v : list EthNamesEntry)
  : Action B unit :=
  let! s := getStore in
  setStore (mkStore (ensAddresses s) (ethNames s) v
              (ethAddressBookPrivate s)).

Definition setEthAddressBookPrivate (v : list EthNamesEntry)
  : Action B unit :=
  let! s := getStore in
  setStore (mkStore (ensAddresses s) (ethNames s)
              (ethAddressBookGlobal s) v).

(** The worklist after merging: the current worklist followed by the new
    addresses, deduplicated, then restricted to valid addresses. *)
Definition mergedEnsAddresses (current newAddresses : list string)
  : list string :=
  List.filter isValidEthAddress
    (Js.filter uniqueStrings (current ++ newAddresses)).

Definition updateEnsAddresses (newAddresses : list string)
  : Action B bool :=
  let! s := getStore in
  let newEnsAddresses := mergedEnsAddresses (ensAddresses s) newAddresses in
  let currentEnsAddresses := ensAddresses s in
  let changed :=
    negb (bool_decide (newEnsAddresses = currentEnsAddresses)) in
  (if changed then setEnsAddresses newEnsAddresses else ret tt) ;;;
  ret changed.

(** The addresses whose names are requested: global book, private book
    and worklist, deduplicated. *)
Definition ethNamesAddresses (s : Store) : list string :=
  Js.filter uniqueStrings
    (map address (ethAddressBookGlobal s)
     ++ map address (ethAddressBookPrivate s)
     ++ ensAddresses s).

Definition fetchEthNames : Action B unit :=
  let! s := getStore in
  let addresses := ethNamesAddresses s in
  tryCatch
    (let! result := request (GetEthNames addresses)
                      (getEthNames addresses) in
     setEthNames result)
    (λ e,
       loggerError e ;;;
       let message := messageOf e in
       notify (mkNotification "eth_names.error.title"
                 "eth_names.error.message" message true)).

Definition fetchEnsNames (addresses : list string) (forceUpdate : bool)
  : Action B unit :=
  if Nat.eqb (length addresses) 0 then ret tt
  else
    let! changed := updateEnsAddresses addresses in
    if negb forceUpdate && negb changed then ret tt
    else
      let! s := getStore in
      let latestEnsAddresses := ensAddresses s in
      if Nat.ltb 0 (length latestEnsAddresses) then
        (if forceUpdate then
           let! taskId := request (GetEnsNamesTask latestEnsAddresses)
                            (getEnsNamesTask latestEnsAddresses) in
           request (AwaitTask taskId) (awaitTask taskId)
         else
           request (GetEnsNames latestEnsAddresses)
             (getEnsNames latestEnsAddresses)) ;;;
        fetchEthNames
      else ret tt.

(** The [ethNameSelector] projection, over the [enableEthNames] frontend
    setting: [get(ethNames)[address] ?? null], a property read on the
    mapping object. *)
Definition ethNameSelector (enableEthNames : bool) (s : Store)
    (addr : string) : option Js.Value :=
  if negb enableEthNames then None else Js.objectGet (ethNames s) addr.

Definition updateEthAddressBookState (location : EthAddressBookLocation)
    (result : list EthNamesEntry) : Action B unit :=
  (match location with
   | global => setEthAddressBookGlobal result
   | private => setEthAddressBookPrivate result
   end) ;;;
  fetchEthNames.

Definition fetchEthAddressBook (location : EthAddressBookLocation)
    (addresses : option (list string)) : Action B unit :=
  let notifyError (error : Thrown) : Action B unit :=
    loggerError error ;;;
    let message := messageOf error in
    notify (mkNotification "eth_address_book.actions.fetch.error.title"
              "eth_address_book.actions.fetch.error.message" message true)
  in
  tryCatch
    (let! result := request (GetEthAddressBook location addresses)
                      (getEthAddressBook location addresses) in
     updateEthAddressBookState location result)
    (λ e, notifyError e).

Definition addEthAddressBook (location : EthAddressBookLocation)
    (entries : list EthNamesEntry) : Action B unit :=
  let! result := request (AddAddressBook location entries)
                   (addAddressBook location entries) in
  if (result : bool) then fetchEthAddressBook location None else ret tt.

Definition updateEthAddressBook (location : EthAddressBookLocation)
    (entries : list EthNamesEntry) : Action B unit :=
  let! result := request (UpdateAddressBook location entries)
                   (updateAddressBook location entries) in
  if (result : bool) then fetchEthAddressBook location None else ret tt.

Definition deleteEthAddressBook (location : EthAddressBookLocation)
    (addresses : list string) : Action B unit :=
  let! result := request (DeleteAddressBook location addresses)
                   (deleteAddressBook location addresses) in
  if (result : bool) then fetchEthAddressBook location None else ret tt.

(** The actions the store exposes, and runs of them one after the other
    (a rejected action leaves the world as it was when it rejected). *)
Inductive Operation : Type :=
| FetchEnsNames (addresses : list string) (forceUpdate : bool)
| FetchEthNames
| FetchEthAddressBook (location : EthAddressBookLocation)
    (addresses : option (list string))
| AddEthAddressBook (location : EthAddressBookLocation)
    (entries : list EthNamesEntry)
| UpdateEthAddressBook (location : EthAddressBookLocation)
    (entries : list EthNamesEntry)
| DeleteEthAddressBook (location : EthAddressBookLocation)
    (addresses : list string).

Definition perform (op : Operation) : Action B unit :=
  match op with
  | FetchEnsNames addresses forceUpdate =>
    fetchEnsNames addresses forceUpdate
  | FetchEthNames => fetchEthNames
  | FetchEthAddressBook location addresses =>
    fetchEthAddressBook location addresses
  | AddEthAddressBook location entries =>
    addEthAddressBook location entries
  | UpdateEthAddressBook location entries =>
    updateEthAddressBook location entries
  | DeleteEthAddressBook location addresses =>
    deleteEthAddressBook location addresses
  end.

Definition run (w : World B) (ops : list Operation) : World B :=
  foldl (λ w op, (perform op w).1) w ops.

(** Number of ENS resolution requests (plain or as a task) in a trace. *)
Definition isEnsResolution (c : Call) : bool :=
  match c with
  | GetEnsNames _ | GetEnsNamesTask _ => true
  | _ => false
  end.

Definition ensResolutions (trace : list Call) : nat :=
  length (List.filter isEnsResolution trace).

End Actions.

End EthNamesStore.

(** ** Vocabulary of the statements about the name store *)

Module EthNamesSpec.

Import EthNamesStore.

(** Deduplication of [l] keeping first occurrences, given the elements
    already [seen]. *)
Fixpoint dedupFrom (seen l : list string) : list string :=
  match l with
  | [] => []
  | x :: l' =>
    if bool_decide (x ∈ seen)
    then dedupFrom (seen ++ [x]) l'
    else x :: dedupFrom (seen ++ [x]) l'
  end.

Definition dedup (l : list string) : list string := dedupFrom [] l.

Section Worlds.

Context {B : Type} `{imports : EthNamesStore.Imports B}.

(** The worklist holds valid addresses only. *)
Definition validAddresses (l : list string) : Prop :=
  Forall (λ a, isValidEthAddress a = true) l.

(** The worklist invariant. *)
Definition worklistOk (l : list string) : Prop :=
  validAddresses l ∧ NoDup l.

(** The notifications raised when a fetch is rejected with [e]. *)
Definition fetchErrorNotification (e : Thrown) : Notification :=
  mkNotification "eth_address_book.actions.fetch.error.title"
    "eth_address_book.actions.fetch.error.message" (messageOf e) true.

Definition namesErrorNotification (e : Thrown) : Notification :=
  mkNotification "eth_names.error.title" "eth_names.error.message"
    (messageOf e) true.

(** The store with the mirror of [location] replaced. *)
Definition withAddressBook (s : Store) (location : EthAddressBookLocation)
    (entries : list EthNamesEntry) : Store :=
  match location with
  | global =>
    mkStore (ensAddresses s) (ethNames s) entries (ethAddressBookPrivate s)
  | private =>
    mkStore (ensAddresses s) (ethNames s) (ethAddressBookGlobal s) entries
  end.

(** The world after a request [c] that left the backend in [b']. *)
Definition requested (w : World B) (c : Call) (b' : B) : World B :=
  mkWorld (store w) b' (calls w ++ [c]) (logged w) (notifications w).

End Worlds.

End EthNamesSpec.

(** ** Concrete instances of the imports, used to run the stores *)

Module Fixtures.

Import AssetInfoRetrieval EthNamesStore.

(** The part of an identifier after its last colon. *)
Fixpoint afterLastColon (s : string) : string :=
  match s with
  | EmptyString => ""
  | String c rest =>
    if bool_decide (":" ∈ list_ascii_of_string rest)%char
    then afterLastColon rest
    else if bool_decide (c = ":")%char then rest else String c rest
  end.

Definition eip155Imports : AssetInfoRetrieval.Imports := {|
  isEvmIdentifier := String.prefix "eip155";
  getAddressFromEvmIdentifier := λ key,
    match key with
    | Js.Str identifier => afterLastColon identifier
    | Js.Inherited _ => ""
    end;
  CUSTOM_ASSET := "custom asset"
|}.

Definition collectible : AssetInfo :=
  mkAssetInfo (Some "nft-1") (Some "My Collectible") None (Some true)
    (Some "art") None None.

Definition tokenA : AssetInfo :=
  mkAssetInfo (Some "A") (Some "Token A") (Some "TKA") None None
    (Some "X") None.

Definition ether : AssetInfo :=
  mkAssetInfo (Some "ETH") (Some "Ethereum") (Some "ETH") None None
    None None.

Definition cache (key : Js.Value) : option AssetInfo :=
  match key with
  | Js.Str k =>
    if String.eqb k "nft-1" then Some collectible
    else if String.eqb k "A" then Some tokenA
    else if String.eqb k "ETH" then Some ether
    else None
  | Js.Inherited _ => None
  end.

Definition collections : gmap string AssetCollection :=
  {[ "X" := mkAssetCollection (Some "Collection A") (Some "COLA") ]}.

(** Nothing pending, except the canonical key ETH. *)
Definition refs : Refs :=
  mkRefs true (λ k, String.eqb k "ETH") cache collections.

Definition hexPrefixed (s : string) : bool := String.prefix "0x" s.

(** A backend that answers every request. *)
Definition online : EthNamesStore.Imports unit := {|
  isValidEthAddress := hexPrefixed;
  getEnsNames := λ _ b, (b, Js.Normal tt);
  getEnsNamesTask := λ _ b, (b, Js.Normal 1);
  awaitTask := λ _ b, (b, Js.Normal tt);
  getEthNames := λ addresses b,
    (b, Js.Normal (list_to_map ((λ a, (a, "name of " +:+ a)) <$> addresses)));
  getEthAddressBook := λ _ _ b, (b, Js.Normal [mkEntry "0xb0" "Bob"]);
  addAddressBook := λ _ _ b, (b, Js.Normal true);
  updateAddressBook := λ _ _ b, (b, Js.Normal true);
  deleteAddressBook := λ _ _ b, (b, Js.Normal true)
|}.

(** A backend that rejects every request and reports every mutation as
    failed. *)
Definition offline : EthNamesStore.Imports unit := {|
  isValidEthAddress := hexPrefixed;
  getEnsNames := λ _ b, (b, Js.Throw (ThrownError "offline"));
  getEnsNamesTask := λ _ b, (b, Js.Throw (ThrownError "offline"));
  awaitTask := λ _ b, (b, Js.Throw (ThrownError "offline"));
  getEthNames := λ _ b, (b, Js.Throw (ThrownError "offline"));
  getEthAddressBook := λ _ _ b, (b, Js.Throw (ThrownError "offline"));
  addAddressBook := λ _ _ b, (b, Js.Normal false);
  updateAddressBook := λ _ _ b, (b, Js.Normal false);
  deleteAddressBook := λ _ _ b, (b, Js.Normal false)
|}.

End Fixtures.

(** ** Vocabulary of the further statements about the name store *)

Module EthNamesMoreSpec.

Import EthNamesStore EthNamesSpec.

Section Worlds.

Context {B : Type} `{imports : EthNamesStore.Imports B}.

(** The world with the worklist replaced. *)
Definition withEnsAddresses (w : World B) (l : list string) : World B :=
  mkWorld
    (mkStore l (ethNames (store w)) (ethAddressBookGlobal (store w))
       (ethAddressBookPrivate (store w)))
    (backend w) (calls w) (logged w) (notifications w).

(** The mirror of a location. *)
Definition addressBookOf (s : Store) (location : EthAddressBookLocation)
  : list EthNamesEntry :=
  match location with
  | global => ethAddressBookGlobal s
  | private => ethAddressBookPrivate s
  end.

Definition isGetEthNames (c : Call) : bool :=
  match c with
  | GetEthNames _ => true
  | _ => false
  end.

(** Requests of the task-based ENS resolution. *)
Definition isTaskCall (c : Call) : bool :=
  match c with
  | GetEnsNamesTask _ | AwaitTask _ => true
  | _ => false
  end.

Definition isPlainEnsCall (c : Call) : bool :=
  match c with
  | GetEnsNames _ => true
  | _ => false
  end.

(** The requests an action adds to the trace of [w]. *)
Definition added (w w' : World B) : list Call :=
  drop (length (calls w)) (calls w').

(** Every notification comes with a logged error carrying its message. *)
Definition reported (w : World B) : Prop :=
  map messageOf (logged w) = map messageParam (notifications w).

Definition sameLocation (l l' : EthAddressBookLocation) : bool :=
  match l, l' with
  | global, global | private, private => true
  | _, _ => false
  end.

(** Whether an operation may replace the mirror of [location]. *)
Definition refetches (op : Operation) (location : EthAddressBookLocation)
  : bool :=
  match op with
  | FetchEnsNames _ _ | FetchEthNames => false
  | FetchEthAddressBook l _ | AddEthAddressBook l _
  | UpdateEthAddressBook l _ | DeleteEthAddressBook l _ =>
    sameLocation l location
  end.

End Worlds.

End EthNamesMoreSpec.

(** ** components/settings/api-keys: the exchange settings panel *)

Module ExchangeSettings.

Import EthNamesStore.

(** The [Exchange] type of '@/types/exchanges' is imported, not defined,
    by the panel.  The panel reads the location and the name of an exchange
    object; whatever other properties the object has are carried along in
    [details], by key. *)
Record Exchange : Type := mkExchange {
  location : string;
  name : string;
  details : list (string * string)
}.

(** [array.findIndex(predicate)], scanning from position [i]. *)
Fixpoint findIndexFrom {A} (predicate : A → bool) (rest : list A) (i : nat)
  : Z :=
  match rest with
  | [] => (-1)%Z
  | x :: rest' =>
    if predicate x then Z.of_nat i else findIndexFrom predicate rest' (S i)
  end.

Definition findIndex {A} (predicate : A → bool) (array : list A) : Z :=
  findIndexFrom predicate array 0.

(** The array left by [array.splice(start)], which deletes every element
    from [start] on (counted from the end when negative). *)
Definition spliceFrom {A} (start : Z) (array : list A) : list A :=
  let len := Z.of_nat (length array) in
  let from := if (start <? 0)%Z then Z.max (len + start) 0
              else Z.min start len in
  take (Z.to_nat from) array.

(** The answer of the settings [update]. *)
Record ActionStatus : Type := mkStatus {
  success : bool;
  message : option string
}.

(** The notification of a failed update: the action named in it, the
    exchange and the message of the status. *)
Record SyncNotification : Type := mkSyncNotification {
  enableAction : bool;
  notifiedLocation : string;
  notifiedName : string;
  notifiedMessage : option string
}.

(** The settings store behind the panel: the [nonSyncingExchanges] general
    setting and the [update] action, over an arbitrary state [S]. *)
Class Imports (S : Type) : Type := {
  current : S → list Exchange;
  update : list Exchange → S → S * Js.completion Thrown ActionStatus
}.

(** The local list, the settings store, the payloads sent to [update] and
    the notifications raised. *)
Record Panel (S : Type) : Type := mkPanel {
  nonSyncingExchanges : list Exchange;
  settings : S;
  updates : list (list Exchange);
  notifications : list SyncNotification
}.
Global Arguments mkPanel {S} _ _ _ _.
Global Arguments nonSyncingExchanges {S} _.
Global Arguments settings {S} _.
Global Arguments updates {S} _.
Global Arguments notifications {S} _.

Section Panel.

Context {S : Type} `{imports : Imports S}.

Definition sameExchange (exchange item : Exchange) : bool :=
  String.eqb (name item) (name exchange)
  && String.eqb (location item) (location exchange).

Definition findNonSyncExchangeIndex (p : Panel S) (exchange : Exchange) : Z :=
  findIndex (sameExchange exchange) (nonSyncingExchanges p).

Definition isNonSyncExchange (p : Panel S) (exchange : Exchange) : bool :=
  (-1 <? findNonSyncExchangeIndex p exchange)%Z.

Definition resetNonSyncingExchanges (p : Panel S) : Panel S :=
  mkPanel (current (settings p)) (settings p) (updates p) (notifications p).

(** The list [toggleSync] sends to [update], and the [enable] flag it
    computes on the way. *)
Definition toggledData (p : Panel S) (exchange : Exchange)
  : list Exchange * bool :=
  let index := findNonSyncExchangeIndex p exchange in
  let data := nonSyncingExchanges p in
  if (-1 <? index)%Z
  then (spliceFrom index data, false)
  else (data ++ [mkExchange (location exchange) (name exchange) []], true).

Definition toggleSync (exchange : Exchange) (p : Panel S)
  : Panel S * Js.completion Thrown unit :=
  let (data, enable) := toggledData p exchange in
  match update data (settings p) with
  | (settings', Js.Throw e) =>
    (mkPanel (nonSyncingExchanges p) settings' (updates p ++ [data])
       (notifications p),
     Js.Throw e)
  | (settings', Js.Normal status) =>
    let notifications' :=
      if negb (success status)
      then notifications p
           ++ [mkSyncNotification enable (location exchange) (name exchange)
                 (message status)]
      else notifications p in
    (resetNonSyncingExchanges
       (mkPanel (nonSyncingExchanges p) settings' (updates p ++ [data])
          notifications'),
     Js.Normal tt)
  end.

End Panel.

End ExchangeSettings.

(** ** store/assets/info: [fetchTokenDetails] *)

Module TokenDetails.

Import EthNamesStore.

(** Requests to the backend: the ERC20 details request, and the wait for
    the task it started (whose title names the address). *)
Inductive Call : Type :=
| Erc20Details (address : string)
| AwaitErc20Task (taskId : nat) (titleAddress : string).

(** The error notification: the address of its title and the [message]
    parameter of its description. *)
Record ErrorNotification : Type := mkErrorNotification {
  titleAddress : string;
  descriptionMessage : option string;
  display : bool
}.

(** The backend behind [useAssetInfoApi] and [useTasks], and the token type
    with its empty object [{}]. *)
Class Imports (B T : Type) : Type := {
  emptyToken : T;
  erc20details : string → B → B * Js.completion Thrown nat;
  awaitTask : nat → B → B * Js.completion Thrown T
}.

Record World (B : Type) : Type := mkWorld {
  backend : B;
  calls : list Call;
  notifications : list ErrorNotification
}.
Global Arguments mkWorld {B} _ _ _.
Global Arguments backend {B} _.
Global Arguments calls {B} _.
Global Arguments notifications {B} _.

(** [e.message] of a caught value: reading it off a nullish value
    throws. *)
Definition messageProperty (e : Thrown)
  : Js.completion AssetInfoRetrieval.TypeError (option string) :=
  match e with
  | ThrownError message => Js.Normal (Some message)
  | ThrownString _ => Js.Normal None
  | ThrownNullish => Js.Throw AssetInfoRetrieval.ReadPropertyOfNull
  end.

Section Store.

Context {B T : Type} `{imports : Imports B T}.

Definition fetchTokenDetails (address : string) (w : World B)
  : World B * Js.completion AssetInfoRetrieval.TypeError T :=
  let handler (e : Thrown) (w' : World B) :=
    match messageProperty e with
    | Js.Normal message =>
      (mkWorld (backend w') (calls w')
         (notifications w' ++ [mkErrorNotification address message true]),
       Js.Normal emptyToken)
    | Js.Throw t => (w', Js.Throw t)
    end in
  let (b1, r1) := erc20details address (backend w) in
  let w1 := mkWorld b1 (calls w ++ [Erc20Details address]) (notifications w) in
  match r1 with
  | Js.Throw e => handler e w1
  | Js.Normal taskId =>
    let (b2, r2) := awaitTask taskId b1 in
    let w2 :=
      mkWorld b2 (calls w1 ++ [AwaitErc20Task taskId address])
        (notifications w1) in
    match r2 with
    | Js.Throw e => handler e w2
    | Js.Normal result => (w2, Js.Normal result)
    end
  end.

End Store.

End TokenDetails.

(** ** types/blockchain/chains: the chain classes *)

Module Chains.

(** The [Blockchain] enum of '@rotki/common/lib/blockchain' is imported,
    not defined: its members are strings; the ones the classes name, and
    the list of all its values, are taken as given. *)
Class BlockchainEnum : Type := {
  BTC : string;
  BCH : string;
  ETH : string;
  ETH2 : string;
  KSM : string;
  DOT : string;
  AVAX : string;
  OPTIMISM : string;
  values : list string
}.

(** [array.includes(x)] *)
Definition includes (array : list string) (x : string) : bool :=
  bool_decide (x ∈ array).

Section Classes.

Context `{blockchain : BlockchainEnum}.

Definition BtcChains : list string := [BTC; BCH].
Definition EthChains : list string := [ETH; ETH2].
Definition RestChains : list string := [KSM; DOT; AVAX; OPTIMISM].
Definition TokenChains : list string := [ETH; OPTIMISM].

Definition isBtcChain (chain : string) : bool := includes BtcChains chain.
Definition isEthChain (chain : string) : bool := includes EthChains chain.
Definition isRestChain (chain : string) : bool := includes RestChains chain.
Definition isTokenChain (chain : string) : bool := includes TokenChains chain.
Definition isBlockchain (chain : string) : bool := includes values chain.

End Classes.

End Chains.

(** ** components/status/sync: the snapshot import of the sync indicator *)

Module SnapshotImport.

Import EthNamesStore.

Inductive Uploader : Type := BalanceUploader | LocationUploader.

(** The message shown: the key and [message] parameter of its description,
    and its [success] property when it has one. *)
Record Message : Type := mkMessage {
  descriptionKey : string;
  descriptionMessage : option string;
  success : option bool
}.

Section Component.

Context {B File : Type}.

(** The two ways the snapshot reaches the backend. *)
Inductive ApiCall : Type :=
| ImportBalancesSnapshot (balancePath locationPath : string)
| UploadBalancesSnapshot (balanceFile locationFile : File).

(** The [path] of a file, whether the app runs in an app session, and the
    snapshot api. *)
Class Imports : Type := {
  path : File → string;
  appSession : bool;
  importBalancesSnapshot : string → string → B → B * Js.completion Thrown unit;
  uploadBalancesSnapshot : File → File → B → B * Js.completion Thrown unit
}.

(** The refs [importSnapshot] reads and writes (an uploader ref is set when
    its component is mounted), the backend, and the effects: api calls,
    messages, delays of the scheduled logouts, uploaders asked to drop their
    file. *)
Record Component : Type := mkComponent {
  balanceSnapshotFile : option File;
  locationDataSnapshotFile : option File;
  importSnapshotLoading : bool;
  balanceSnapshotUploader : bool;
  locationDataSnapshotUploader : bool;
  backend : B;
  apiCalls : list ApiCall;
  messages : list Message;
  logoutTimers : list nat;
  removedFiles : list Uploader
}.

Context `{imports : Imports}.

Definition importFilesCompleted (c : Component) : bool :=
  bool_decide (is_Some (balanceSnapshotFile c))
  && bool_decide (is_Some (locationDataSnapshotFile c)).

Definition importSnapshot (c : Component)
  : Component * Js.completion AssetInfoRetrieval.TypeError unit :=
  match balanceSnapshotFile c, locationDataSnapshotFile c with
  | Some balanceFile, Some locationFile =>
    let call :=
      if appSession
      then ImportBalancesSnapshot (path balanceFile) (path locationFile)
      else UploadBalancesSnapshot balanceFile locationFile in
    let (b', r) :=
      if appSession
      then importBalancesSnapshot (path balanceFile) (path locationFile)
             (backend c)
      else uploadBalancesSnapshot balanceFile locationFile (backend c) in
    let finish (msg : Message) (timers : list nat) :=
      mkComponent None None false
        (balanceSnapshotUploader c) (locationDataSnapshotUploader c)
        b' (apiCalls c ++ [call]) (messages c ++ [msg])
        (logoutTimers c ++ timers)
        (removedFiles c
         ++ (if balanceSnapshotUploader c then [BalanceUploader] else [])
         ++ (if locationDataSnapshotUploader c then [LocationUploader]
             else [])) in
    match r with
    | Js.Normal _ =>
      (finish
         (mkMessage "sync_indicator.import_snapshot.messages.success_description"
            (Some "") (Some true))
         [3000],
       Js.Normal tt)
    | Js.Throw e =>
      match TokenDetails.messageProperty e with
      | Js.Normal message =>
        (finish
           (mkMessage "sync_indicator.import_snapshot.messages.failed_description"
              message None)
           [],
         Js.Normal tt)
      | Js.Throw t =>
        (mkComponent (balanceSnapshotFile c) (locationDataSnapshotFile c) true
           (balanceSnapshotUploader c) (locationDataSnapshotUploader c)
           b' (apiCalls c ++ [call]) (messages c) (logoutTimers c)
           (removedFiles c),
         Js.Throw t)
      end
    end
  | _, _ => (c, Js.Normal tt)
  end.

End Component.

Global Arguments ApiCall : clear implicits.
Global Arguments Imports : clear implicits.
Global Arguments Component : clear implicits.

End SnapshotImport.

(** ** Further concrete instances *)

Module MoreFixtures.

Import EthNamesStore.

(** Settings that accept every update of the non-syncing exchanges. *)
Definition acceptingSettings
  : ExchangeSettings.Imports (list ExchangeSettings.Exchange) := {|
  ExchangeSettings.current := λ s, s;
  ExchangeSettings.update := λ data _,
    (data, Js.Normal (ExchangeSettings.mkStatus true None))
|}.

(** Settings that refuse every update. *)
Definition refusingSettings
  : ExchangeSettings.Imports (list ExchangeSettings.Exchange) := {|
  ExchangeSettings.current := λ s, s;
  ExchangeSettings.update := λ _ s,
    (s, Js.Normal (ExchangeSettings.mkStatus false (Some "denied")))
|}.

Definition kraken : ExchangeSettings.Exchange :=
  ExchangeSettings.mkExchange "kraken" "main" [("krakenAccountType", "pro")].

Definition binance : ExchangeSettings.Exchange :=
  ExchangeSettings.mkExchange "binance" "spot" [].

Definition panel : ExchangeSettings.Panel (list ExchangeSettings.Exchange) :=
  ExchangeSettings.mkPanel [kraken; binance] [kraken; binance] [] [].

(** A backend whose ERC20 task times out. *)
Definition timingOut : TokenDetails.Imports unit (option string) := {|
  TokenDetails.emptyToken := None;
  TokenDetails.erc20details := λ _ b, (b, Js.Normal 7);
  TokenDetails.awaitTask := λ _ b, (b, Js.Throw (ThrownError "timeout"))
|}.

Definition blockchains : Chains.BlockchainEnum := {|
  Chains.BTC := "BTC";
  Chains.BCH := "BCH";
  Chains.ETH := "ETH";
  Chains.ETH2 := "ETH2";
  Chains.KSM := "KSM";
  Chains.DOT := "DOT";
  Chains.AVAX := "AVAX";
  Chains.OPTIMISM := "OPTIMISM";
  Chains.values :=
    ["BTC"; "BCH"; "ETH"; "ETH2"; "KSM"; "DOT"; "AVAX"; "OPTIMISM"]
|}.

(** An app session whose import is refused; files are given by path. *)
Definition refusedImport : SnapshotImport.Imports unit string := {|
  SnapshotImport.path := λ f, f;
  SnapshotImport.appSession := true;
  SnapshotImport.importBalancesSnapshot := λ _ _ b,
    (b, Js.Throw (ThrownError "bad snapshot"));
  SnapshotImport.uploadBalancesSnapshot := λ _ _ b, (b, Js.Normal tt)
|}.

Definition chosen : SnapshotImport.Component unit string :=
  SnapshotImport.mkComponent (Some "/tmp/balances.csv")
    (Some "/tmp/locations.csv") false true false tt [] [] [] [].

End MoreFixtures.

(** * Properties *)

Module JsFacts.

Import Js.

Lemma truthy_Some_ne s : s ≠ "" → truthy (Some s) = true.
Proof.
  intros Hs. unfold truthy.
  destruct (String.eqb_spec s ""); [contradiction | reflexivity].
Qed.

Lemma truthy_inv v : truthy v = true → ∃ s, v = Some s ∧ s ≠ "".
Proof.
  destruct v as [s|]; simpl; [|discriminate].
  destruct (String.eqb_spec s ""); [discriminate|]. eauto.
Qed.

Lemma truthy_false_inv v :
  truthy v = false → ¬ ∃ s, v = Some s ∧ s ≠ "".
Proof.
  intros Hv (s & -> & Hs). rewrite truthy_Some_ne in Hv; congruence.
Qed.

Lemma or_truthy_l a b : truthy a = true → or a b = a.
Proof. unfold or. intros ->. reflexivity. Qed.

Lemma or_falsy_l a b : truthy a = false → or a b = b.
Proof. unfold or. intros ->. reflexivity. Qed.

End JsFacts.

Module AssetInfoFacts.

Import AssetInfoRetrieval AssetInfoSpec.

Ltac case_string_eqb :=
  match goal with
  | |- context [String.eqb ?a ?b] => destruct (String.eqb_spec a b)
  end.

Section Facts.

Context `{imports : Imports}.

Lemma firstOf_or override raw fallback :
  firstOf override raw fallback
    (Js.or (Js.or override raw) (Some fallback)).
Proof.
  unfold firstOf.
  destruct (Js.truthy override) eqn:Ho.
  - left. rewrite (JsFacts.or_truthy_l override) by done.
    rewrite JsFacts.or_truthy_l by done.
    split; [by apply JsFacts.truthy_inv | done].
  - right. rewrite (JsFacts.or_falsy_l override) by done.
    apply JsFacts.truthy_false_inv in Ho.
    destruct (Js.truthy raw) eqn:Hr.
    + left. rewrite JsFacts.or_truthy_l by done.
      split_and!; [done | by apply JsFacts.truthy_inv | done].
    + right. rewrite JsFacts.or_falsy_l by done.
      apply JsFacts.truthy_false_inv in Hr. done.
Qed.

Lemma fallbackFor_getAssetNameFallback id :
  fallbackFor id (getAssetNameFallback id).
Proof.
  unfold fallbackFor, getAssetNameFallback.
  destruct (isEvmIdentifier id); [left | right]; done.
Qed.

Lemma customFlag_true_iff data :
  customFlag data = true ↔
  ∃ d, data = Some d
       ∧ (isCustomAsset d = Some true ∨ assetType d = Some CUSTOM_ASSET).
Proof.
  unfold customFlag. split.
  - destruct data as [d|]; simpl.
    + destruct (isCustomAsset d) as [[|]|] eqn:Hflag;
        [ intros _; eauto
        | intros ?%bool_decide_eq_true; eauto
        | intros ?%bool_decide_eq_true; eauto ].
    + discriminate.
  - intros (d & -> & [H | H]); simpl.
    + by rewrite H.
    + rewrite H. rewrite bool_decide_eq_true_2 by done.
      by destruct (isCustomAsset d) as [[|]|].
Qed.

(** C1: [assetInfo] never throws, and its result is [null] exactly when
    the identifier is undefined or empty, or is pending in the asset
    cache; otherwise the result is a record. *)
Theorem assetInfo_null_iff (refs : Refs) (identifierRef : option string)
    (enableAssociation isCollectionParent : bool) :
  ∃ result,
    assetInfo refs identifierRef enableAssociation isCollectionParent
      = Js.Normal result
    ∧ (result = None ↔
       identifierRef = None
       ∨ identifierRef = Some ""
       ∨ ∃ id, identifierRef = Some id ∧ isPending refs id = true).
Proof.
  destruct identifierRef as [id|]; simpl.
  2: { eexists; split; [done | naive_solver]. }
  case_string_eqb.
  { subst. eexists; split; [done | naive_solver]. }
  destruct (isPending refs id) eqn:Hp.
  { eexists; split; [done | naive_solver]. }
  destruct (customFlag _) eqn:Hc.
  - apply customFlag_true_iff in Hc as (d & -> & _).
    eexists; split; [done|]. split; [done|].
    intros [? | [? | (? & ? & ?)]]; simplify_eq. congruence.
  - eexists; split; [done|]. split; [done|].
    intros [? | [? | (? & ? & ?)]]; simplify_eq. congruence.
Qed.

Lemma assetInfo_custom refs id enableAssociation isCollectionParent d :
  id ≠ "" → isPending refs id = false →
  retrieve refs (keyOf refs id enableAssociation) = Some d →
  customFlag (Some d) = true →
  assetInfo refs (Some id) enableAssociation isCollectionParent
  = Js.Normal (Some (mkAssetInfo
      d.(identifier) d.(name) d.(name) (Some true)
      d.(customAssetType) d.(collectionId) d.(assetType))).
Proof.
  intros Hid Hp Hd Hc. unfold assetInfo, keyOf in *.
  case_string_eqb; [done|]. rewrite Hp, Hd, Hc. done.
Qed.

Lemma assetInfo_plain refs id enableAssociation isCollectionParent :
  id ≠ "" → isPending refs id = false →
  customFlag (retrieve refs (keyOf refs id enableAssociation)) = false →
  let data := retrieve refs (keyOf refs id enableAssociation) in
  let override := collectionDataOf refs isCollectionParent data in
  assetInfo refs (Some id) enableAssociation isCollectionParent
  = Js.Normal (Some (mkAssetInfo
      (spread data).(identifier)
      (Js.or (Js.or (override ≫= collectionName) (data ≫= name))
         (Some (getAssetNameFallback id)))
      (Js.or (Js.or (override ≫= collectionSymbol) (data ≫= symbol))
         (Some (getAssetNameFallback id)))
      (Some false)
      (spread data).(customAssetType) (spread data).(collectionId)
      (spread data).(assetType))).
Proof.
  intros Hid Hp Hc. unfold assetInfo, keyOf in *.
  case_string_eqb; [done|]. rewrite Hp, Hc. done.
Qed.

Lemma present_truthy v : present v → Js.truthy v = true.
Proof. intros (s & -> & Hs). by apply JsFacts.truthy_Some_ne. Qed.

(** C2: for a non-custom asset whose cached metadata declares a
    collection id, [assetInfo] with [isCollectionParent = true] resolves
    name and symbol to the collection's values whenever these are
    present; with [isCollectionParent = false] name and symbol come from
    the item's own metadata (or the fallback) and the result does not
    depend on the fetched-collections mapping. *)
Theorem collection_override_precedence (refs : Refs) (id : string)
    (enableAssociation : bool) (d : AssetInfo) :
  id ≠ "" →
  isPending refs id = false →
  retrieve refs (keyOf refs id enableAssociation) = Some d →
  customFlag (Some d) = false →
  present (collectionId d) →
  (∃ r,
     assetInfo refs (Some id) enableAssociation true = Js.Normal (Some r)
     ∧ ∀ cid c,
         collectionId d = Some cid →
         fetchedAssetCollections refs !! cid = Some c →
         (present (collectionName c) → name r = collectionName c)
         ∧ (present (collectionSymbol c) → symbol r = collectionSymbol c))
  ∧ (∃ r fallback,
       assetInfo refs (Some id) enableAssociation false
         = Js.Normal (Some r)
       ∧ fallbackFor id fallback
       ∧ firstOf None (name d) fallback (name r)
       ∧ firstOf None (symbol d) fallback (symbol r))
  ∧ ∀ collections',
      assetInfo (withCollections refs collections') (Some id)
        enableAssociation false
      = assetInfo refs (Some id) enableAssociation false.
Proof.
  intros Hid Hp Hd Hc Hcid. split_and!.
  - eexists. split.
    { apply assetInfo_plain; [done | done | by rewrite Hd]. }
    intros cid c Hcid' Hc'. rewrite Hd. simpl.
    unfold collectionDataOf. simpl.
    rewrite (present_truthy _ Hcid). rewrite Hcid'. simpl. rewrite Hc'.
    simpl. split; intros Hpres%present_truthy.
    + rewrite (JsFacts.or_truthy_l (collectionName c)) by done.
      by rewrite JsFacts.or_truthy_l.
    + rewrite (JsFacts.or_truthy_l (collectionSymbol c)) by done.
      by rewrite JsFacts.or_truthy_l.
  - eexists _, _. split.
    { apply assetInfo_plain; [done | done | by rewrite Hd]. }
    split; [apply fallbackFor_getAssetNameFallback|].
    rewrite Hd. simpl. split; apply firstOf_or.
  - intros collections'. unfold assetInfo, withCollections. simpl.
    reflexivity.
Qed.

(** C3: when the cached metadata read by [assetInfo] is flagged as a
    custom asset (by its [isCustomAsset] flag or by its asset type), the
    returned record has its symbol equal to the metadata's name and its
    [isCustomAsset] field true. *)
Theorem custom_asset_symbol_is_name (refs : Refs) (id : string)
    (enableAssociation isCollectionParent : bool) (d : AssetInfo) :
  id ≠ "" →
  isPending refs id = false →
  retrieve refs (keyOf refs id enableAssociation) = Some d →
  isCustomAsset d = Some true ∨ assetType d = Some CUSTOM_ASSET →
  ∃ r,
    assetInfo refs (Some id) enableAssociation isCollectionParent
      = Js.Normal (Some r)
    ∧ symbol r = name d
    ∧ isCustomAsset r = Some true.
Proof.
  intros Hid Hp Hd Hflag. eexists. split.
  - apply assetInfo_custom; [done | done | done |].
    apply customFlag_true_iff. eauto.
  - done.
Qed.

(** C4 (amended): for a non-pending identifier whose cached metadata is
    not flagged as a custom asset, name and symbol of the record
    returned by [assetInfo] each are the collection override if present,
    else the raw metadata value if present, else the fallback
    synthesized from the input identifier; for an EVM identifier without
    cached metadata both are "EVM Token: <address>". *)
Theorem fallback_chain_non_custom (refs : Refs) (id : string)
    (enableAssociation isCollectionParent : bool) :
  id ≠ "" →
  isPending refs id = false →
  customFlag (retrieve refs (keyOf refs id enableAssociation)) = false →
  followsFallbackChain refs id enableAssociation isCollectionParent
  ∧ (isEvmIdentifier id = true →
     retrieve refs (keyOf refs id enableAssociation) = None →
     ∃ r,
       assetInfo refs (Some id) enableAssociation isCollectionParent
         = Js.Normal (Some r)
       ∧ name r
         = Some ("EVM Token: " +:+ getAddressFromEvmIdentifier (Js.Str id))
       ∧ symbol r
         = Some ("EVM Token: " +:+ getAddressFromEvmIdentifier (Js.Str id))).
Proof.
  intros Hid Hp Hc. split.
  - eexists _, _. split; [by apply assetInfo_plain|].
    split; [apply fallbackFor_getAssetNameFallback|].
    simpl. split; apply firstOf_or.
  - intros Hevm Hnone. eexists. split; [by apply assetInfo_plain|].
    rewrite Hnone. unfold collectionDataOf, getAssetNameFallback.
    rewrite Hevm, andb_false_r. simpl. done.
Qed.

(** C5: the association lookup is a property read on a plain object,
    so under a name inherited from [Object.prototype] it answers the
    inherited member, not the identifier: "constructor" is never a key of
    the association map, yet it is not returned unchanged.  The rest of
    the claim holds: the map is the single entry ETH2 to ETH under the
    setting and empty without it, and for every identifier that is not an
    inherited name the lookup answers the mapped identifier or the
    identifier itself, and applied to its own answer it changes nothing. *)
Theorem association_breaks_on_inherited_key (refs : Refs) :
  assetAssociationMap refs !! "constructor" = None
  ∧ getAssociatedAssetIdentifier refs "constructor"
    = Js.Inherited "constructor"
  ∧ getAssociatedAssetIdentifier refs "constructor" ≠ Js.Str "constructor"
  ∧ assetAssociationMap refs
    = (if treatEth2AsEth refs then {["ETH2" := "ETH"]} else ∅)
  ∧ (∀ id, id ∉ Js.objectPrototypeKeys →
       getAssociatedAssetIdentifier refs id
       = Js.Str (default id (assetAssociationMap refs !! id))
       ∧ getAssociatedAssetIdentifier refs
           (default id (assetAssociationMap refs !! id))
         = Js.Str (default id (assetAssociationMap refs !! id))).
Proof.
  assert (Hmap : assetAssociationMap refs !! "constructor" = None).
  { unfold assetAssociationMap. destruct (treatEth2AsEth refs).
    - rewrite lookup_insert_ne by done. apply lookup_empty.
    - apply lookup_empty. }
  assert (Hget : getAssociatedAssetIdentifier refs "constructor"
                 = Js.Inherited "constructor").
  { unfold getAssociatedAssetIdentifier, Js.objectGet. rewrite Hmap.
    reflexivity. }
  assert (Hown : ∀ id, id ∉ Js.objectPrototypeKeys →
    getAssociatedAssetIdentifier refs id
    = Js.Str (default id (assetAssociationMap refs !! id))).
  { intros id Hid. unfold getAssociatedAssetIdentifier, Js.objectGet.
    destruct (assetAssociationMap refs !! id); [done|].
    by rewrite (bool_decide_eq_false_2 _ Hid). }
  split_and!; [exact Hmap | exact Hget | | |].
  - rewrite Hget. discriminate.
  - unfold assetAssociationMap. by destruct (treatEth2AsEth refs).
  - intros id Hid. split; [by apply Hown|].
    destruct (assetAssociationMap refs !! id) as [v|] eqn:Hv; simpl;
      [|rewrite (Hown id Hid), Hv; done].
    unfold assetAssociationMap in Hv.
    destruct (treatEth2AsEth refs) eqn:Htreat;
      [|by rewrite lookup_empty in Hv].
    apply lookup_insert_Some in Hv as [[_ <-] | [_ Hv]];
      [|by rewrite lookup_empty in Hv].
    unfold getAssociatedAssetIdentifier, assetAssociationMap, Js.objectGet.
    rewrite Htreat. rewrite lookup_insert_ne by done.
    by rewrite lookup_empty.
Qed.

(** C10: the pending check of [assetInfo] reads the raw identifier only.
    When association maps the identifier to a canonical key that is itself
    pending, asking for the canonical key gives [null], but asking for the
    identifier gives a record, built from the cache entry of the canonical
    key: its other fields, and name and symbol by the custom-asset rule or
    by the fallback chain.  The result is the same under every pending state
    that leaves the identifier itself not pending. *)
Theorem pending_checked_on_raw_identifier (refs : Refs) (id canonical : string)
    (isCollectionParent : bool) :
  id ≠ "" →
  isPending refs id = false →
  getAssociatedAssetIdentifier refs id = Js.Str canonical →
  isPending refs canonical = true →
  let data := retrieve refs (Js.Str canonical) in
  let override := collectionDataOf refs isCollectionParent data in
  (∃ r fallback,
     assetInfo refs (Some id) true isCollectionParent = Js.Normal (Some r)
     ∧ identifier r = data ≫= identifier
     ∧ customAssetType r = data ≫= customAssetType
     ∧ collectionId r = data ≫= collectionId
     ∧ assetType r = data ≫= assetType
     ∧ isCustomAsset r = Some (customFlag data)
     ∧ fallbackFor id fallback
     ∧ (customFlag data = true →
        name r = data ≫= name ∧ symbol r = data ≫= name)
     ∧ (customFlag data = false →
        firstOf (override ≫= collectionName) (data ≫= name) fallback (name r)
        ∧ firstOf (override ≫= collectionSymbol) (data ≫= symbol) fallback
            (symbol r)))
  ∧ (∀ enableAssociation,
       assetInfo refs (Some canonical) enableAssociation isCollectionParent
       = Js.Normal None)
  ∧ (∀ pending,
       pending id = false →
       assetInfo (withPending refs pending) (Some id) true isCollectionParent
       = assetInfo refs (Some id) true isCollectionParent)
  ∧ (∀ pending,
       pending id = true →
       assetInfo (withPending refs pending) (Some id) true isCollectionParent
       = Js.Normal None).
Proof.
  intros Hid Hp Hkey Hcanonical data override.
  assert (Hk : keyOf refs id true = Js.Str canonical) by exact Hkey.
  split_and!.
  - exists
      (match assetInfo refs (Some id) true isCollectionParent with
       | Js.Normal (Some r) => r
       | _ => emptyInfo
       end), (getAssetNameFallback id).
    destruct (customFlag data) eqn:Hc.
    + pose proof Hc as (d & Hd & _)%customFlag_true_iff.
      rewrite (assetInfo_custom refs id true isCollectionParent d);
        [| done | done | by rewrite Hk | by rewrite <- Hd].
      fold data. rewrite Hd. simpl.
      split_and!; try done. apply fallbackFor_getAssetNameFallback.
    + rewrite (assetInfo_plain refs id true isCollectionParent);
        [| done | done | by rewrite Hk].
      rewrite Hk. fold data override. simpl.
      split_and!; try done.
      * by destruct data.
      * by destruct data.
      * by destruct data.
      * by destruct data.
      * apply fallbackFor_getAssetNameFallback.
      * intros _. split; apply firstOf_or.
  - intros enableAssociation. unfold assetInfo.
    destruct (String.eqb canonical ""); [done|]. by rewrite Hcanonical.
  - intros pending Hpending. unfold assetInfo, withPending. simpl.
    by rewrite Hpending, Hp.
  - intros pending Hpending. unfold assetInfo, withPending. simpl.
    rewrite Hpending. by destruct (String.eqb id "").
Qed.

End Facts.

(** *** The stores run on the fixtures *)

#[local] Existing Instance Fixtures.eip155Imports.

Example unknown_identifier_while_pending :
  assetInfo Fixtures.refs (Some "ETH") true true = Js.Normal None
  ∧ assetInfo (withPending Fixtures.refs (λ _, false)) (Some "unknown")
      true true
    = Js.Normal (Some (mkAssetInfo None (Some "") (Some "") (Some false)
                         None None None)).
Proof. split; reflexivity. Qed.

Example association_toggles :
  assetInfo Fixtures.refs (Some "ETH2") true true
  = Js.Normal (Some (mkAssetInfo (Some "ETH") (Some "Ethereum")
                       (Some "ETH") (Some false) None None None))
  ∧ assetInfo
      (mkRefs false (λ _, false) Fixtures.cache Fixtures.collections)
      (Some "ETH2") true true
    = Js.Normal (Some (mkAssetInfo None (Some "") (Some "") (Some false)
                         None None None)).
Proof. split; reflexivity. Qed.

Lemma collection_override_precedence_witness :
  "A" ≠ ""
  ∧ isPending Fixtures.refs "A" = false
  ∧ retrieve Fixtures.refs (keyOf Fixtures.refs "A" true)
    = Some Fixtures.tokenA
  ∧ customFlag (Some Fixtures.tokenA) = false
  ∧ present (collectionId Fixtures.tokenA)
  ∧ ((∃ r,
        assetInfo Fixtures.refs (Some "A") true true = Js.Normal (Some r)
        ∧ ∀ cid c,
            collectionId Fixtures.tokenA = Some cid →
            fetchedAssetCollections Fixtures.refs !! cid = Some c →
            (present (collectionName c) → name r = collectionName c)
            ∧ (present (collectionSymbol c) →
               symbol r = collectionSymbol c))
     ∧ (∃ r fallback,
          assetInfo Fixtures.refs (Some "A") true false
            = Js.Normal (Some r)
          ∧ fallbackFor "A" fallback
          ∧ firstOf None (name Fixtures.tokenA) fallback (name r)
          ∧ firstOf None (symbol Fixtures.tokenA) fallback (symbol r))
     ∧ ∀ collections',
         assetInfo (withCollections Fixtures.refs collections') (Some "A")
           true false
         = assetInfo Fixtures.refs (Some "A") true false).
Proof.
  assert (H1 : "A" ≠ "") by done.
  assert (H2 : isPending Fixtures.refs "A" = false) by reflexivity.
  assert (H3 : retrieve Fixtures.refs (keyOf Fixtures.refs "A" true)
               = Some Fixtures.tokenA) by reflexivity.
  assert (H4 : customFlag (Some Fixtures.tokenA) = false) by reflexivity.
  assert (H5 : present (collectionId Fixtures.tokenA)).
  { exists "X". split; [reflexivity | done]. }
  repeat (split; [assumption|]).
  apply (collection_override_precedence Fixtures.refs "A" true
           Fixtures.tokenA H1 H2 H3 H4 H5).
Defined.

Lemma custom_asset_symbol_is_name_witness :
  "nft-1" ≠ ""
  ∧ isPending Fixtures.refs "nft-1" = false
  ∧ retrieve Fixtures.refs (keyOf Fixtures.refs "nft-1" true)
    = Some Fixtures.collectible
  ∧ (isCustomAsset Fixtures.collectible = Some true
     ∨ assetType Fixtures.collectible = Some CUSTOM_ASSET)
  ∧ ∃ r,
      assetInfo Fixtures.refs (Some "nft-1") true true = Js.Normal (Some r)
      ∧ symbol r = name Fixtures.collectible
      ∧ isCustomAsset r = Some true.
Proof.
  assert (H1 : "nft-1" ≠ "") by done.
  assert (H2 : isPending Fixtures.refs "nft-1" = false) by reflexivity.
  assert (H3 : retrieve Fixtures.refs (keyOf Fixtures.refs "nft-1" true)
               = Some Fixtures.collectible) by reflexivity.
  assert (H4 : isCustomAsset Fixtures.collectible = Some true
               ∨ assetType Fixtures.collectible = Some CUSTOM_ASSET)
    by (left; reflexivity).
  repeat (split; [assumption|]).
  apply (custom_asset_symbol_is_name Fixtures.refs "nft-1" true true
           Fixtures.collectible H1 H2 H3 H4).
Defined.

(** C4, as stated, fails on a custom asset: for the cached record
    [{isCustomAsset: true, name: 'My Collectible'}] under a non-EVM
    identifier the chain yields the empty fallback as symbol, while
    [assetInfo] returns the name as symbol. *)
Lemma fallback_chain_fails_on_custom_asset :
  "nft-1" ≠ ""
  ∧ isPending Fixtures.refs "nft-1" = false
  ∧ assetInfo Fixtures.refs (Some "nft-1") true true
    = Js.Normal (Some (mkAssetInfo (Some "nft-1") (Some "My Collectible")
                         (Some "My Collectible") (Some true) (Some "art")
                         None None))
  ∧ ¬ followsFallbackChain Fixtures.refs "nft-1" true true.
Proof.
  split_and!; [done | reflexivity | reflexivity |].
  intros (r & fallback & Hr & Hfb & _ & Hsym).
  vm_compute in Hr. injection Hr as <-.
  destruct Hfb as [[Hevm _] | [_ ->]]; [vm_compute in Hevm; discriminate|].
  destruct Hsym as [[(s & Hs & _) _] | [(_ & (s & Hs & _) & _) | (_ & _ & H)]].
  - vm_compute in Hs. discriminate.
  - vm_compute in Hs. discriminate.
  - vm_compute in H. discriminate.
Qed.

Lemma fallback_chain_non_custom_witness :
  "eip155:1/erc20:0xABC" ≠ ""
  ∧ isPending Fixtures.refs "eip155:1/erc20:0xABC" = false
  ∧ customFlag
      (retrieve Fixtures.refs
         (keyOf Fixtures.refs "eip155:1/erc20:0xABC" true))
    = false
  ∧ followsFallbackChain Fixtures.refs "eip155:1/erc20:0xABC" true true
  ∧ ∃ r,
      assetInfo Fixtures.refs (Some "eip155:1/erc20:0xABC") true true
        = Js.Normal (Some r)
      ∧ name r = Some "EVM Token: 0xABC"
      ∧ symbol r = Some "EVM Token: 0xABC".
Proof.
  assert (H1 : "eip155:1/erc20:0xABC" ≠ "") by done.
  assert (H2 : isPending Fixtures.refs "eip155:1/erc20:0xABC" = false)
    by reflexivity.
  assert (H3 : customFlag
                 (retrieve Fixtures.refs
                    (keyOf Fixtures.refs "eip155:1/erc20:0xABC" true))
               = false) by reflexivity.
  repeat (split; [assumption|]). split.
  - apply (fallback_chain_non_custom Fixtures.refs "eip155:1/erc20:0xABC"
             true true H1 H2 H3).
  - apply (fallback_chain_non_custom Fixtures.refs "eip155:1/erc20:0xABC"
             true true H1 H2 H3); reflexivity.
Defined.

Lemma pending_checked_on_raw_identifier_witness :
  "ETH2" ≠ ""
  ∧ isPending Fixtures.refs "ETH2" = false
  ∧ getAssociatedAssetIdentifier Fixtures.refs "ETH2" = Js.Str "ETH"
  ∧ isPending Fixtures.refs "ETH" = true
  ∧ (∃ r,
       assetInfo Fixtures.refs (Some "ETH2") true true = Js.Normal (Some r)
       ∧ identifier r = Some "ETH"
       ∧ name r = Some "Ethereum"
       ∧ symbol r = Some "ETH")
  ∧ assetInfo Fixtures.refs (Some "ETH") true true = Js.Normal None
  ∧ assetInfo (withPending Fixtures.refs (λ k, String.eqb k "ETH2"))
      (Some "ETH2") true true
    = Js.Normal None.
Proof.
  assert (H1 : "ETH2" ≠ "") by done.
  assert (H2 : isPending Fixtures.refs "ETH2" = false) by reflexivity.
  assert (H3 : getAssociatedAssetIdentifier Fixtures.refs "ETH2"
               = Js.Str "ETH") by reflexivity.
  assert (H4 : isPending Fixtures.refs "ETH" = true) by reflexivity.
  repeat (split; [assumption|]).
  destruct (pending_checked_on_raw_identifier Fixtures.refs "ETH2" "ETH" true
              H1 H2 H3 H4)
    as ((r & fallback & Hr & _) & Hcanonical & _ & Hraw).
  split; [|split; [exact (Hcanonical true) | exact (Hraw _ eq_refl)]].
  exists r. split; [exact Hr|].
  assert (Hr' : assetInfo Fixtures.refs (Some "ETH2") true true
                = Js.Normal (Some (mkAssetInfo (Some "ETH") (Some "Ethereum")
                    (Some "ETH") (Some false) None None None)))
    by reflexivity.
  rewrite Hr' in Hr. injection Hr as <-. split_and!; reflexivity.
Defined.

End AssetInfoFacts.

Module EthNamesFacts.

Import EthNamesStore EthNamesSpec EthNamesMoreSpec.

(** *** Arrays *)

Lemma indexOfFrom_app_notin value pre l i :
  value ∉ pre →
  Js.indexOfFrom value (pre ++ l) i
  = Js.indexOfFrom value l (i + length pre).
Proof.
  revert i. induction pre as [|x pre IH]; intros i Hnotin; simpl.
  - by rewrite Nat.add_0_r.
  - apply not_elem_of_cons in Hnotin as [Hne Hnotin].
    destruct (decide (x = value)); [congruence|].
    rewrite IH by done. f_equal. lia.
Qed.

Lemma indexOfFrom_in_lt value pre l i :
  value ∈ pre →
  (Js.indexOfFrom value (pre ++ l) i < Z.of_nat (i + length pre))%Z.
Proof.
  revert i. induction pre as [|x pre IH]; intros i Hin; simpl.
  - by apply elem_of_nil in Hin.
  - destruct (decide (x = value)) as [->|Hne]; [lia|].
    apply elem_of_cons in Hin as [->|Hin]; [done|].
    specialize (IH (S i) Hin). lia.
Qed.

Lemma uniqueStrings_at pre x rest :
  uniqueStrings x (length pre) (pre ++ x :: rest) = bool_decide (x ∉ pre).
Proof.
  unfold uniqueStrings, Js.indexOf.
  destruct (decide (x ∈ pre)) as [Hin|Hnotin].
  - rewrite (bool_decide_eq_false_2 (x ∉ pre)) by tauto.
    apply bool_decide_eq_false_2.
    pose proof (indexOfFrom_in_lt x pre (x :: rest) 0 Hin). simpl in *. lia.
  - rewrite (bool_decide_eq_true_2 (x ∉ pre)) by done.
    apply bool_decide_eq_true_2.
    rewrite indexOfFrom_app_notin by done. simpl.
    destruct (decide (x = x)); [lia | done].
Qed.

Lemma filterFrom_uniqueStrings pre rest :
  Js.filterFrom uniqueStrings (pre ++ rest) (length pre) rest
  = dedupFrom pre rest.
Proof.
  revert pre. induction rest as [|x rest IH]; intros pre; [done|].
  simpl. rewrite uniqueStrings_at.
  specialize (IH (pre ++ [x])).
  rewrite <- app_assoc, length_app, Nat.add_1_r in IH. simpl in IH.
  rewrite IH.
  destruct (decide (x ∈ pre)).
  - rewrite bool_decide_eq_false_2 by tauto.
    by rewrite bool_decide_eq_true_2.
  - rewrite bool_decide_eq_true_2 by done.
    by rewrite bool_decide_eq_false_2.
Qed.

(** The [filter(uniqueStrings)] idiom is deduplication. *)
Lemma filter_uniqueStrings l : Js.filter uniqueStrings l = dedup l.
Proof. apply (filterFrom_uniqueStrings [] l). Qed.

Lemma elem_of_dedupFrom a seen l :
  a ∈ dedupFrom seen l ↔ a ∈ l ∧ a ∉ seen.
Proof.
  revert seen. induction l as [|x l IH]; intros seen; simpl.
  - split; [by intros ?%elem_of_nil | by intros [?%elem_of_nil _]].
  - case_bool_decide as Hx.
    + rewrite IH, elem_of_cons, elem_of_app, list_elem_of_singleton.
      intuition congruence.
    + rewrite !elem_of_cons, IH, elem_of_app, list_elem_of_singleton.
      destruct (decide (a = x)); intuition congruence.
Qed.

Lemma NoDup_dedupFrom seen l : NoDup (dedupFrom seen l).
Proof.
  revert seen. induction l as [|x l IH]; intros seen; simpl.
  - constructor.
  - case_bool_decide; [apply IH|].
    constructor; [|apply IH].
    rewrite elem_of_dedupFrom, elem_of_app, list_elem_of_singleton.
    tauto.
Qed.

Lemma dedupFrom_app seen l l' :
  dedupFrom seen (l ++ l') = dedupFrom seen l ++ dedupFrom (seen ++ l) l'.
Proof.
  revert seen. induction l as [|x l IH]; intros seen; simpl.
  - by rewrite app_nil_r.
  - rewrite IH, <- app_assoc. simpl. by case_bool_decide.
Qed.

Lemma dedupFrom_NoDup seen l :
  NoDup l → (∀ a, a ∈ l → a ∉ seen) → dedupFrom seen l = l.
Proof.
  revert seen. induction l as [|x l IH]; intros seen Hnd Hfresh; [done|].
  apply NoDup_cons in Hnd as [Hx Hnd]. simpl.
  rewrite bool_decide_eq_false_2 by (apply Hfresh; left).
  f_equal. apply IH; [done|].
  intros a Ha. rewrite elem_of_app, list_elem_of_singleton.
  intros [Hseen | ->]; [|done].
  by apply (Hfresh a); [right|].
Qed.

Lemma dedup_union l : NoDup (dedup l) ∧ ∀ a, a ∈ dedup l ↔ a ∈ l.
Proof.
  split; [apply NoDup_dedupFrom|].
  intros a. unfold dedup. rewrite elem_of_dedupFrom.
  split; [tauto|]. intros Ha. split; [done|]. apply not_elem_of_nil.
Qed.

Lemma elem_of_bool_filter {A} (f : A → bool) l a :
  a ∈ List.filter f l ↔ a ∈ l ∧ f a = true.
Proof. rewrite !list_elem_of_In. apply List.filter_In. Qed.

Lemma bool_filter_all {A} (f : A → bool) l :
  Forall (λ a, f a = true) l → List.filter f l = l.
Proof.
  induction 1 as [|x l Hx _ IH]; [done|]. simpl. by rewrite Hx, IH.
Qed.

Lemma bool_filter_none {A} (f : A → bool) l :
  (∀ a, a ∈ l → f a = false) → List.filter f l = [].
Proof.
  induction l as [|x l IH]; intros Hl; [done|]. simpl.
  rewrite (Hl x) by left. apply IH. intros a Ha. apply Hl. by right.
Qed.

(** *** Actions *)

Ltac unfold_actions :=
  unfold perform, fetchEnsNames, updateEnsAddresses, fetchEthAddressBook,
    updateEthAddressBookState, addEthAddressBook, updateEthAddressBook,
    deleteEthAddressBook, fetchEthNames, setEnsAddresses, setEthNames,
    setEthAddressBookGlobal, setEthAddressBookPrivate, tryCatch, bind, ret,
    getStore, setStore, request, loggerError, notify in *.

Section Facts.

Context {B : Type} `{imports : Imports B}.

Implicit Types (w : World B) (a addr : string).

Lemma merged_valid cur new :
  validAddresses (mergedEnsAddresses cur new).
Proof.
  apply Forall_forall. intros a Ha.
  by apply elem_of_bool_filter in Ha as [_ Ha].
Qed.

Lemma merged_NoDup cur new : NoDup (mergedEnsAddresses cur new).
Proof.
  unfold mergedEnsAddresses.
  apply NoDup_ListNoDup, List.NoDup_filter, NoDup_ListNoDup.
  rewrite filter_uniqueStrings. apply NoDup_dedupFrom.
Qed.

Lemma elem_of_merged a cur new :
  a ∈ mergedEnsAddresses cur new
  ↔ (a ∈ cur ∨ a ∈ new) ∧ isValidEthAddress a = true.
Proof.
  unfold mergedEnsAddresses.
  rewrite elem_of_bool_filter, filter_uniqueStrings.
  destruct (dedup_union (cur ++ new)) as [_ ->].
  by rewrite elem_of_app.
Qed.

Lemma merged_stable cur new :
  NoDup cur → validAddresses cur →
  (∀ a, a ∈ new → isValidEthAddress a = true → a ∈ cur) →
  mergedEnsAddresses cur new = cur.
Proof.
  intros Hnd Hvalid Hnew. unfold mergedEnsAddresses.
  rewrite filter_uniqueStrings. unfold dedup.
  rewrite dedupFrom_app, List.filter_app. simpl.
  rewrite dedupFrom_NoDup by (done || intros; apply not_elem_of_nil).
  rewrite bool_filter_all by done.
  rewrite bool_filter_none; [by rewrite app_nil_r|].
  intros a [Ha Hfresh]%elem_of_dedupFrom.
  destruct (isValidEthAddress a) eqn:Hv; [|done].
  destruct Hfresh. by apply Hnew.
Qed.

Lemma ensResolutions_app (t t' : list Call) :
  ensResolutions (t ++ t') = ensResolutions t + ensResolutions t'.
Proof. unfold ensResolutions. by rewrite List.filter_app, length_app. Qed.

(** [fetchEthNames] issues one request and resolves; depending on the
    answer it replaces the mapping or reports the error. *)
Lemma fetchEthNames_run w :
  let addresses := ethNamesAddresses (store w) in
  let trace := calls w ++ [GetEthNames addresses] in
  fetchEthNames w
  = match getEthNames addresses (backend w) with
    | (b', Js.Normal result) =>
      (mkWorld
         (mkStore (ensAddresses (store w)) result
            (ethAddressBookGlobal (store w))
            (ethAddressBookPrivate (store w)))
         b' trace (logged w) (notifications w),
       Js.Normal tt)
    | (b', Js.Throw e) =>
      (mkWorld (store w) b' trace (logged w ++ [e])
         (notifications w
          ++ [mkNotification "eth_names.error.title"
                "eth_names.error.message" (messageOf e) true]),
       Js.Normal tt)
    end.
Proof.
  unfold_actions. simpl.
  destruct (getEthNames _ _) as [b' [result|e]]; reflexivity.
Qed.

Lemma fetchEthNames_effects w :
  let w' := (fetchEthNames w).1 in
  ensAddresses (store w') = ensAddresses (store w)
  ∧ ensResolutions (calls w') = ensResolutions (calls w)
  ∧ (fetchEthNames w).2 = Js.Normal tt.
Proof.
  rewrite fetchEthNames_run. simpl.
  destruct (getEthNames _ _) as [b' [result|e]]; simpl;
    rewrite ensResolutions_app; simpl; split_and!; (done || lia).
Qed.

Lemma updateEnsAddresses_run newAddresses w :
  let merged := mergedEnsAddresses (ensAddresses (store w)) newAddresses in
  updateEnsAddresses newAddresses w
  = if bool_decide (merged = ensAddresses (store w))
    then (w, Js.Normal false)
    else
      (mkWorld
         (mkStore merged (ethNames (store w))
            (ethAddressBookGlobal (store w))
            (ethAddressBookPrivate (store w)))
         (backend w) (calls w) (logged w) (notifications w),
       Js.Normal true).
Proof.
  unfold_actions. simpl. by case_bool_decide.
Qed.

(** What a call of [fetchEnsNames] with some addresses does to the
    worklist and to the number of ENS resolution requests. *)
Lemma fetchEnsNames_effects addresses forceUpdate w :
  addresses ≠ [] →
  let merged := mergedEnsAddresses (ensAddresses (store w)) addresses in
  let changed := negb (bool_decide (merged = ensAddresses (store w))) in
  let w' := (fetchEnsNames addresses forceUpdate w).1 in
  ensAddresses (store w') = merged
  ∧ ensResolutions (calls w')
    = ensResolutions (calls w)
      + (if (forceUpdate || changed) && Nat.ltb 0 (length merged)
         then 1 else 0)
  ∧ (forceUpdate = false → changed = false →
     fetchEnsNames addresses forceUpdate w = (w, Js.Normal tt)).
Proof.
  intros Hne merged changed. subst changed. simpl.
  destruct addresses as [|a addresses]; [done|].
  remember (fetchEnsNames (a :: addresses) forceUpdate w) as r eqn:Hr.
  unfold fetchEnsNames in Hr.
  change (length (a :: addresses) =? 0)%nat with false in Hr.
  cbv iota in Hr. unfold bind at 1 in Hr.
  rewrite updateEnsAddresses_run in Hr. fold merged in Hr.
  assert (Hfetch : ∀ w0,
    ensAddresses (store (fetchEthNames w0).1) = ensAddresses (store w0)
    ∧ ensResolutions (calls (fetchEthNames w0).1)
      = ensResolutions (calls w0))
    by (intros w0; destruct (fetchEthNames_effects w0) as (? & ? & _);
        done).
  case_bool_decide as Hm; simpl in Hr.
  - destruct forceUpdate; simpl in Hr.
    2: { subst r. unfold ret. simpl. split_and!; [done || congruence | lia | done]. }
    unfold bind, getStore, request in Hr. simpl in Hr.
    rewrite <- Hm in Hr.
    destruct (Nat.ltb 0 (length merged)) eqn:Hlen;
      rewrite ?Hlen in Hr; simpl in Hr.
    2: { subst r. unfold ret. simpl. split_and!; [done || congruence | lia | done]. }
    destruct (getEnsNamesTask merged (backend w)) as [b1 [taskId|e]]
      eqn:Htask; rewrite ?Htask in Hr; simpl in Hr.
    2: { subst r. simpl. rewrite ensResolutions_app. unfold ensResolutions. simpl.
         split_and!; [done || congruence | lia | done]. }
    destruct (awaitTask taskId b1) as [b2 [[]|e]] eqn:Hawait;
      rewrite ?Hawait in Hr; simpl in Hr.
    2: { subst r. simpl. rewrite !ensResolutions_app. unfold ensResolutions. simpl.
         split_and!; [done || congruence | lia | done]. }
    subst r. destruct (Hfetch (mkWorld (store w) b2
      ((calls w ++ [GetEnsNamesTask merged]) ++ [AwaitTask taskId])
      (logged w) (notifications w))) as [-> ->].
    simpl. rewrite !ensResolutions_app. unfold ensResolutions. simpl.
    split_and!; [done || congruence | lia | done].
  - rewrite orb_true_r. simpl.
    unfold bind, getStore, request in Hr.
    rewrite andb_false_r in Hr. do 2 simpl in Hr.
    destruct (Nat.ltb 0 (length merged)) eqn:Hlen;
      rewrite ?Hlen in Hr; simpl in Hr.
    2: { subst r. unfold ret. simpl. split_and!; [done || congruence | lia | done]. }
    destruct forceUpdate; simpl in Hr.
    + destruct (getEnsNamesTask merged (backend w)) as [b1 [taskId|e]]
      eqn:Htask; rewrite ?Htask in Hr; simpl in Hr.
      2: { subst r. simpl. rewrite ensResolutions_app. unfold ensResolutions. simpl.
           split_and!; [done || congruence | lia | done]. }
      destruct (awaitTask taskId b1) as [b2 [[]|e]] eqn:Hawait;
      rewrite ?Hawait in Hr; simpl in Hr.
      2: { subst r. simpl. rewrite !ensResolutions_app. unfold ensResolutions. simpl.
           split_and!; [done || congruence | lia | done]. }
      subst r.
      match goal with
      | |- context [fetchEthNames ?w0] =>
        destruct (Hfetch w0) as [-> ->]
      end.
      simpl. rewrite !ensResolutions_app. unfold ensResolutions. simpl.
      split_and!; [done || congruence | lia | done].
    + destruct (getEnsNames merged (backend w)) as [b1 [[]|e]] eqn:Hens;
      rewrite ?Hens in Hr; simpl in Hr.
      2: { subst r. simpl. rewrite ensResolutions_app. unfold ensResolutions. simpl.
           split_and!; [done || congruence | lia | done]. }
      subst r.
      match goal with
      | |- context [fetchEthNames ?w0] =>
        destruct (Hfetch w0) as [-> ->]
      end.
      simpl. rewrite !ensResolutions_app. unfold ensResolutions. simpl.
      split_and!; [done || congruence | lia | done].
Qed.

Lemma fetchEthAddressBook_run location addresses w :
  let c := GetEthAddressBook location addresses in
  fetchEthAddressBook location addresses w
  = match getEthAddressBook location addresses (backend w) with
    | (b', Js.Normal result) =>
      fetchEthNames
        (mkWorld (withAddressBook (store w) location result) b'
           (calls w ++ [c]) (logged w) (notifications w))
    | (b', Js.Throw e) =>
      (mkWorld (store w) b' (calls w ++ [c]) (logged w ++ [e])
         (notifications w ++ [fetchErrorNotification e]),
       Js.Normal tt)
    end.
Proof.
  simpl. unfold fetchEthAddressBook, tryCatch, bind at 1, request.
  destruct (getEthAddressBook _ _ _) as [b' [result|e]]; [|reflexivity].
  unfold updateEthAddressBookState, bind.
  destruct location; unfold_actions; simpl;
    destruct (getEthNames _ _) as [b'' [names|e]]; reflexivity.
Qed.

Lemma fetchEthAddressBook_effects location addresses w :
  let w' := (fetchEthAddressBook location addresses w).1 in
  ensAddresses (store w') = ensAddresses (store w).
Proof.
  simpl. rewrite fetchEthAddressBook_run.
  destruct (getEthAddressBook _ _ _) as [b' [result|e]]; [|done].
  match goal with
  | |- context [fetchEthNames ?w0] =>
    destruct (fetchEthNames_effects w0) as (-> & _)
  end.
  by destruct location.
Qed.

(** The three address-book mutations share their shape: the backend
    mutation, then a refetch of the location when it reported success. *)
Lemma addEthAddressBook_run location entries w :
  let c := AddAddressBook location entries in
  addEthAddressBook location entries w
  = match addAddressBook location entries (backend w) with
    | (b', Js.Normal true) =>
      fetchEthAddressBook location None (requested w c b')
    | (b', Js.Normal false) => (requested w c b', Js.Normal tt)
    | (b', Js.Throw e) => (requested w c b', Js.Throw e)
    end.
Proof.
  simpl. unfold addEthAddressBook, bind, request, requested.
  destruct (addAddressBook _ _ _) as [b' [[|]|e]]; reflexivity.
Qed.

Lemma updateEthAddressBook_run location entries w :
  let c := UpdateAddressBook location entries in
  updateEthAddressBook location entries w
  = match updateAddressBook location entries (backend w) with
    | (b', Js.Normal true) =>
      fetchEthAddressBook location None (requested w c b')
    | (b', Js.Normal false) => (requested w c b', Js.Normal tt)
    | (b', Js.Throw e) => (requested w c b', Js.Throw e)
    end.
Proof.
  simpl. unfold updateEthAddressBook, bind, request, requested.
  destruct (updateAddressBook _ _ _) as [b' [[|]|e]]; reflexivity.
Qed.

Lemma deleteEthAddressBook_run location addresses w :
  let c := DeleteAddressBook location addresses in
  deleteEthAddressBook location addresses w
  = match deleteAddressBook location addresses (backend w) with
    | (b', Js.Normal true) =>
      fetchEthAddressBook location None (requested w c b')
    | (b', Js.Normal false) => (requested w c b', Js.Normal tt)
    | (b', Js.Throw e) => (requested w c b', Js.Throw e)
    end.
Proof.
  simpl. unfold deleteEthAddressBook, bind, request, requested.
  destruct (deleteAddressBook _ _ _) as [b' [[|]|e]]; reflexivity.
Qed.

(** Every operation leaves the worklist alone or merges addresses into
    it. *)
Lemma perform_ensAddresses op w :
  ensAddresses (store (perform op w).1) = ensAddresses (store w)
  ∨ ∃ addresses,
      ensAddresses (store (perform op w).1)
      = mergedEnsAddresses (ensAddresses (store w)) addresses.
Proof.
  destruct op as [addresses forceUpdate| |location addresses
                 |location entries|location entries|location addresses];
    simpl.
  - destruct addresses as [|a addresses]; [by left|]. right.
    exists (a :: addresses).
    by destruct (fetchEnsNames_effects (a :: addresses) forceUpdate w)
      as (-> & _).
  - left. by destruct (fetchEthNames_effects w) as (-> & _).
  - left. apply fetchEthAddressBook_effects.
  - left. rewrite addEthAddressBook_run. simpl.
    destruct (addAddressBook _ _ _) as [b' [[|]|e]]; [|done|done].
    by rewrite fetchEthAddressBook_effects.
  - left. rewrite updateEthAddressBook_run. simpl.
    destruct (updateAddressBook _ _ _) as [b' [[|]|e]]; [|done|done].
    by rewrite fetchEthAddressBook_effects.
  - left. rewrite deleteEthAddressBook_run. simpl.
    destruct (deleteAddressBook _ _ _) as [b' [[|]|e]]; [|done|done].
    by rewrite fetchEthAddressBook_effects.
Qed.

Lemma perform_worklist op w :
  worklistOk (ensAddresses (store w)) →
  worklistOk (ensAddresses (store (perform op w).1))
  ∧ ensAddresses (store w) ⊆ ensAddresses (store (perform op w).1).
Proof.
  intros [Hvalid Hnd].
  destruct (perform_ensAddresses op w) as [-> | [addresses ->]];
    [done|].
  split; [split; [apply merged_valid | apply merged_NoDup]|].
  intros a Ha. apply elem_of_merged. split; [by left|].
  by eapply Forall_forall in Hvalid.
Qed.

Lemma run_worklist ops w :
  worklistOk (ensAddresses (store w)) →
  worklistOk (ensAddresses (store (run w ops)))
  ∧ ensAddresses (store w) ⊆ ensAddresses (store (run w ops)).
Proof.
  revert w. induction ops as [|op ops IH]; intros w Hw; [done|].
  simpl. destruct (perform_worklist op w Hw) as [Hw' Hsub].
  destruct (IH _ Hw') as [Hw'' Hsub'].
  split; [done|]. by etrans.
Qed.

(** C6: [fetchEnsNames] does nothing on an empty address list, and
    nothing (no backend request at all) when [forceUpdate] is off and
    merging the addresses leaves the worklist as it is.  Hence, for a
    valid address not yet on the worklist, the first call issues exactly
    one ENS resolution request, the second call none, and a third call
    with [forceUpdate] one more although the worklist stays the same. *)
Theorem fetchEnsNames_idempotent (w : World B) :
  (∀ forceUpdate, fetchEnsNames [] forceUpdate w = (w, Js.Normal tt))
  ∧ (∀ addresses,
       mergedEnsAddresses (ensAddresses (store w)) addresses
         = ensAddresses (store w) →
       fetchEnsNames addresses false w = (w, Js.Normal tt))
  ∧ (∀ addr,
       isValidEthAddress addr = true →
       addr ∉ ensAddresses (store w) →
       let w1 := (fetchEnsNames [addr] false w).1 in
       let w2 := (fetchEnsNames [addr] false w1).1 in
       let w3 := (fetchEnsNames [addr] true w2).1 in
       ensResolutions (calls w1) = S (ensResolutions (calls w))
       ∧ fetchEnsNames [addr] false w1 = (w1, Js.Normal tt)
       ∧ ensAddresses (store w3) = ensAddresses (store w2)
       ∧ ensResolutions (calls w3) = S (ensResolutions (calls w2))).
Proof.
  split_and!.
  - done.
  - intros [|a addresses] Hsame; [done|].
    apply (fetchEnsNames_effects (a :: addresses) false w); [done|done|].
    by rewrite Hsame, bool_decide_eq_true_2.
  - intros addr Hvalid Hnew w1 w2 w3.
    set (merged := mergedEnsAddresses (ensAddresses (store w)) [addr]).
    assert (Hin : addr ∈ merged).
    { apply elem_of_merged. split; [right; by left | done]. }
    assert (Hchanged : merged ≠ ensAddresses (store w)) by congruence.
    assert (Hlen : Nat.ltb 0 (length merged) = true).
    { destruct merged; [by apply elem_of_nil in Hin | done]. }
    destruct (fetchEnsNames_effects [addr] false w) as (Hens1 & Hcalls1 & _);
      [done|]. fold w1 merged in Hens1, Hcalls1.
    rewrite bool_decide_eq_false_2, Hlen in Hcalls1 by done.
    simpl in Hcalls1.
    assert (Hstable : mergedEnsAddresses (ensAddresses (store w1)) [addr]
                      = ensAddresses (store w1)).
    { rewrite Hens1. apply merged_stable.
      - apply merged_NoDup.
      - apply merged_valid.
      - by intros a ->%list_elem_of_singleton _. }
    destruct (fetchEnsNames_effects [addr] false w1) as (_ & _ & Hrun2);
      [done|].
    rewrite Hstable, bool_decide_eq_true_2 in Hrun2 by done.
    specialize (Hrun2 eq_refl eq_refl).
    assert (Hw2 : w2 = w1) by (subst w2; by rewrite Hrun2).
    destruct (fetchEnsNames_effects [addr] true w2) as (Hens3 & Hcalls3 & _);
      [done|]. fold w3 in Hens3, Hcalls3.
    rewrite Hw2 in Hens3, Hcalls3. rewrite Hstable in Hens3, Hcalls3.
    rewrite Hens1, Hlen in Hcalls3.
    clearbody w1 w2 w3 merged. simpl in Hcalls3. subst w2.
    split_and!; [lia | done | done | lia].
Qed.

(** C7: [fetchEthNames] requests the names of exactly the deduplicated
    union of the global address-book addresses, the private address-book
    addresses and the ENS worklist, and when the request succeeds the
    mapping becomes the backend result, whatever it was before. *)
Theorem fetchEthNames_rebuilds (w : World B) :
  let s := store w in
  let addresses := ethNamesAddresses s in
  NoDup addresses
  ∧ (∀ a,
       a ∈ addresses
       ↔ a ∈ map address (ethAddressBookGlobal s)
         ∨ a ∈ map address (ethAddressBookPrivate s)
         ∨ a ∈ ensAddresses s)
  ∧ calls (fetchEthNames w).1 = calls w ++ [GetEthNames addresses]
  ∧ ∀ b' result,
      getEthNames addresses (backend w) = (b', Js.Normal result) →
      fetchEthNames w
      = (mkWorld
           (mkStore (ensAddresses s) result (ethAddressBookGlobal s)
              (ethAddressBookPrivate s))
           b' (calls w ++ [GetEthNames addresses]) (logged w)
           (notifications w),
         Js.Normal tt).
Proof.
  intros s addresses. subst addresses. unfold ethNamesAddresses.
  rewrite filter_uniqueStrings.
  destruct (dedup_union (map address (ethAddressBookGlobal s)
              ++ map address (ethAddressBookPrivate s)
              ++ ensAddresses s)) as [Hnd Hin].
  split_and!.
  - done.
  - intros a. by rewrite Hin, !elem_of_app.
  - rewrite fetchEthNames_run. simpl. unfold ethNamesAddresses.
    rewrite filter_uniqueStrings.
    by destruct (getEthNames _ _) as [b' [result|e]].
  - intros b' result Hresult. rewrite fetchEthNames_run. simpl.
    unfold ethNamesAddresses. rewrite filter_uniqueStrings.
    fold s. by rewrite Hresult.
Qed.

Lemma withEnsAddresses_same w : withEnsAddresses w (ensAddresses (store w)) = w.
Proof. by destruct w as [[] ? ? ? ?]. Qed.

(** The whole of [fetchEnsNames], request by request. *)
Lemma fetchEnsNames_run addresses forceUpdate w :
  let merged := mergedEnsAddresses (ensAddresses (store w)) addresses in
  let w1 := withEnsAddresses w merged in
  fetchEnsNames addresses forceUpdate w
  = if bool_decide (addresses = []) then (w, Js.Normal tt)
    else if negb forceUpdate && bool_decide (merged = ensAddresses (store w))
    then (w, Js.Normal tt)
    else if negb (Nat.ltb 0 (length merged)) then (w1, Js.Normal tt)
    else if forceUpdate then
      match getEnsNamesTask merged (backend w) with
      | (b1, Js.Throw e) => (requested w1 (GetEnsNamesTask merged) b1, Js.Throw e)
      | (b1, Js.Normal taskId) =>
        let w2 := requested w1 (GetEnsNamesTask merged) b1 in
        match awaitTask taskId b1 with
        | (b2, Js.Throw e) => (requested w2 (AwaitTask taskId) b2, Js.Throw e)
        | (b2, Js.Normal _) => fetchEthNames (requested w2 (AwaitTask taskId) b2)
        end
      end
    else
      match getEnsNames merged (backend w) with
      | (b1, Js.Throw e) => (requested w1 (GetEnsNames merged) b1, Js.Throw e)
      | (b1, Js.Normal _) => fetchEthNames (requested w1 (GetEnsNames merged) b1)
      end.
Proof.
  intros merged w1.
  destruct addresses as [|a addresses]; [done|].
  rewrite bool_decide_eq_false_2 by done.
  unfold fetchEnsNames.
  change (length (a :: addresses) =? 0)%nat with false. cbv iota.
  unfold bind at 1. rewrite updateEnsAddresses_run. fold merged.
  case_bool_decide as Hm.
  - assert (Hw1 : w1 = w).
    { subst w1. rewrite Hm. apply withEnsAddresses_same. }
    rewrite Hw1. rewrite andb_true_r. simpl negb.
    destruct forceUpdate; simpl; [|done].
    unfold bind, getStore, request, requested. simpl. rewrite <- Hm.
    destruct (Nat.ltb 0 (length merged)); simpl; [|done].
    destruct (getEnsNamesTask merged (backend w)) as [b1 [taskId|e]];
      simpl; [|done].
    by destruct (awaitTask taskId b1) as [b2 [[]|e]].
  - rewrite !andb_false_r. simpl negb. cbv iota.
    unfold bind, getStore, request, requested. simpl.
    destruct (Nat.ltb 0 (length merged)); simpl; [|done].
    destruct forceUpdate; simpl.
    + destruct (getEnsNamesTask merged (backend w)) as [b1 [taskId|e]];
        simpl; [|done].
      by destruct (awaitTask taskId b1) as [b2 [[]|e]].
    + by destruct (getEnsNames merged (backend w)) as [b1 [[]|e]].
Qed.

(** C8 (amended): [fetchEthNames], [fetchEthAddressBook] and the
    add/update/delete mutations change the store only on a
    backend-reported success.  When the request of [fetchEthNames] is
    rejected the store is untouched, the error is logged and notified;
    when the request of [fetchEthAddressBook] is rejected the store is
    untouched, the error is logged and notified and no names are
    requested; when a mutation is rejected or reports failure, nothing
    but the request itself happens.  [fetchEnsNames] is the exception:
    called with some addresses it leaves the worklist merged with them
    whatever the backend answers, the first request it makes already
    carries the merged worklist, and when it is rejected the store is the
    previous one with the merged worklist, which differs from the
    previous store whenever the merge changed the worklist. *)
Theorem mutations_only_on_backend_success (w : World B) :
  (∀ b' e,
     getEthNames (ethNamesAddresses (store w)) (backend w)
       = (b', Js.Throw e) →
     fetchEthNames w
     = (mkWorld (store w) b'
          (calls w ++ [GetEthNames (ethNamesAddresses (store w))])
          (logged w ++ [e])
          (notifications w ++ [namesErrorNotification e]),
        Js.Normal tt))
  ∧ (∀ location addresses b' e,
       getEthAddressBook location addresses (backend w)
         = (b', Js.Throw e) →
       fetchEthAddressBook location addresses w
       = (mkWorld (store w) b'
            (calls w ++ [GetEthAddressBook location addresses])
            (logged w ++ [e])
            (notifications w ++ [fetchErrorNotification e]),
          Js.Normal tt))
  ∧ (∀ location entries b' r,
       addAddressBook location entries (backend w) = (b', r) →
       r ≠ Js.Normal true →
       (addEthAddressBook location entries w).1
       = requested w (AddAddressBook location entries) b')
  ∧ (∀ location entries b' r,
       updateAddressBook location entries (backend w) = (b', r) →
       r ≠ Js.Normal true →
       (updateEthAddressBook location entries w).1
       = requested w (UpdateAddressBook location entries) b')
  ∧ (∀ location addresses b' r,
       deleteAddressBook location addresses (backend w) = (b', r) →
       r ≠ Js.Normal true →
       (deleteEthAddressBook location addresses w).1
       = requested w (DeleteAddressBook location addresses) b')
  ∧ (∀ addresses forceUpdate,
       addresses ≠ [] →
       let merged := mergedEnsAddresses (ensAddresses (store w)) addresses in
       let r := fetchEnsNames addresses forceUpdate w in
       ensAddresses (store r.1) = merged
       ∧ (calls r.1 = calls w
          ∨ (∃ rest, calls r.1 = calls w ++ GetEnsNames merged :: rest)
          ∨ (∃ rest, calls r.1 = calls w ++ GetEnsNamesTask merged :: rest))
       ∧ (∀ e, r.2 = Js.Throw e →
            store r.1 = store (withEnsAddresses w merged)
            ∧ calls r.1 ≠ calls w
            ∧ logged r.1 = logged w
            ∧ notifications r.1 = notifications w
            ∧ (merged ≠ ensAddresses (store w) → store r.1 ≠ store w))).
Proof.
  split_and!.
  - intros b' e He. rewrite fetchEthNames_run. simpl. by rewrite He.
  - intros location addresses b' e He.
    rewrite fetchEthAddressBook_run. simpl. by rewrite He.
  - intros location entries b' r Hr Hfail.
    rewrite addEthAddressBook_run. simpl. rewrite Hr.
    by destruct r as [[|]|e].
  - intros location entries b' r Hr Hfail.
    rewrite updateEthAddressBook_run. simpl. rewrite Hr.
    by destruct r as [[|]|e].
  - intros location addresses b' r Hr Hfail.
    rewrite deleteEthAddressBook_run. simpl. rewrite Hr.
    by destruct r as [[|]|e].
  - intros addresses forceUpdate Hne merged r. subst r.
    rewrite fetchEnsNames_run. fold merged.
    rewrite bool_decide_eq_false_2 by done.
    assert (Hnames : ∀ w0 c,
      store w0 = store (withEnsAddresses w merged) →
      calls w0 = calls w ++ c →
      ensAddresses (store (fetchEthNames w0).1) = merged
      ∧ calls (fetchEthNames w0).1
        = calls w ++ c ++ [GetEthNames (ethNamesAddresses (store w0))]
      ∧ (fetchEthNames w0).2 = Js.Normal tt).
    { intros w0 c Hstore Hcalls. rewrite fetchEthNames_run. simpl.
      rewrite Hcalls, <- app_assoc.
      destruct (getEthNames _ _) as [b' [result|e]]; simpl;
        by rewrite Hstore. }
    assert (Hstays : ∀ w0 c,
      store w0 = store (withEnsAddresses w merged) →
      calls w0 = calls w ++ c :: [] ∨ (∃ c', calls w0 = calls w ++ [c'; c]) →
      logged w0 = logged w → notifications w0 = notifications w →
      store w0 = store (withEnsAddresses w merged)
      ∧ calls w0 ≠ calls w
      ∧ logged w0 = logged w
      ∧ notifications w0 = notifications w
      ∧ (merged ≠ ensAddresses (store w) → store w0 ≠ store w)).
    { intros w0 c Hstore Hcalls Hlog Hnote. split_and!; try done.
      - intros Heq. apply (f_equal length) in Heq.
        destruct Hcalls as [Hc | [c' Hc]]; rewrite Hc in Heq;
          rewrite length_app in Heq; simpl in Heq; lia.
      - intros Hm Heq. apply Hm. rewrite <- Heq, Hstore. done. }
    destruct (negb forceUpdate && bool_decide (merged = ensAddresses (store w)))
      eqn:Hskip.
    { apply andb_prop in Hskip as [_ Hm%bool_decide_eq_true_1].
      simpl. split_and!; [done | by left | done]. }
    destruct (negb (Nat.ltb 0 (length merged))).
    { simpl. split_and!; [done | by left | done]. }
    destruct forceUpdate.
    + destruct (getEnsNamesTask merged (backend w)) as [b1 [taskId|e1]].
      * destruct (awaitTask taskId b1) as [b2 [[]|e2]]; cbv zeta.
        -- match goal with
           | |- context [fetchEthNames ?w0] =>
             destruct (Hnames w0 [GetEnsNamesTask merged; AwaitTask taskId])
               as (Hens & Hcalls & Hnormal);
               [done | by simpl; rewrite <- app_assoc |]
           end.
           split_and!; [done | | by rewrite Hnormal].
           right; right. rewrite Hcalls. by eexists.
        -- cbn [fst snd]. split_and!; [done | |].
           ++ right; right. simpl. rewrite <- app_assoc. by eexists.
           ++ intros e _. apply (Hstays _ (AwaitTask taskId));
                [done | | done | done].
              right. eexists. simpl. by rewrite <- app_assoc.
      * cbn [fst snd]. split_and!; [done | |].
        -- right; right. by eexists.
        -- intros e _. apply (Hstays _ (GetEnsNamesTask merged));
             [done | by left | done | done].
    + destruct (getEnsNames merged (backend w)) as [b1 [[]|e1]].
      * match goal with
        | |- context [fetchEthNames ?w0] =>
          destruct (Hnames w0 [GetEnsNames merged])
            as (Hens & Hcalls & Hnormal); [done | done |]
        end.
        split_and!; [done | | by rewrite Hnormal].
        right; left. rewrite Hcalls. by eexists.
      * cbn [fst snd]. split_and!; [done | |].
        -- right; left. by eexists.
        -- intros e _. apply (Hstays _ (GetEnsNames merged));
             [done | by left | done | done].
Qed.

(** C9: after any sequence of store operations from the initial store,
    the ENS worklist holds only addresses accepted by
    [isValidEthAddress] and no duplicates; further operations never
    remove an address from it; and [updateEnsAddresses] leaves in it
    exactly the addresses it held and the valid ones among the new. *)
Theorem ensAddresses_invariant (b : B) (ops ops' : list Operation)
    (newAddresses : list string) :
  let w := run (initialWorld b) ops in
  validAddresses (ensAddresses (store w))
  ∧ NoDup (ensAddresses (store w))
  ∧ ensAddresses (store w)
    ⊆ ensAddresses (store (run (initialWorld b) (ops ++ ops')))
  ∧ ∀ a,
      a ∈ ensAddresses (store (updateEnsAddresses newAddresses w).1)
      ↔ a ∈ ensAddresses (store w)
        ∨ (a ∈ newAddresses ∧ isValidEthAddress a = true).
Proof.
  intros w.
  assert (Hinit : worklistOk (ensAddresses (store (initialWorld b))))
    by (split; constructor).
  destruct (run_worklist ops _ Hinit) as [[Hvalid Hnd] _]. fold w in Hvalid, Hnd.
  split_and!; [done | done | |].
  - unfold run. rewrite foldl_app.
    by apply (run_worklist ops' w).
  - intros a. rewrite updateEnsAddresses_run. simpl.
    case_bool_decide as Hm; simpl.
    + rewrite <- Hm at 1. rewrite elem_of_merged.
      split; [tauto|]. intros [Ha | [Ha Hv]]; [|tauto].
      split; [by left|]. by eapply Forall_forall in Hvalid.
    + rewrite elem_of_merged.
      split; [tauto|]. intros [Ha | [Ha Hv]]; [|tauto].
      split; [by left|]. by eapply Forall_forall in Hvalid.
Qed.

End Facts.

(** *** The store run on the fixtures *)

Example address_book_fetch_failure_leaves_mirror :
  let w := initialWorld tt in
  let w' := (fetchEthAddressBook (imports := Fixtures.offline) global None
               w).1 in
  store w' = store w ∧ calls w' = [GetEthAddressBook global None].
Proof. split; reflexivity. Qed.

Example address_book_add_refetches :
  let w := initialWorld tt in
  let w' := (addEthAddressBook (imports := Fixtures.online) global
               [mkEntry "0xb0" "Bob"] w).1 in
  ethAddressBookGlobal (store w') = [mkEntry "0xb0" "Bob"]
  ∧ ethNameSelector true (store w') "0xb0"
    = Some (Js.Str "name of 0xb0")
  ∧ calls w'
    = [AddAddressBook global [mkEntry "0xb0" "Bob"];
       GetEthAddressBook global None;
       GetEthNames ["0xb0"]].
Proof. vm_compute. done. Qed.

Lemma fetchEnsNames_idempotent_witness :
  let w := initialWorld tt in
  let w1 := (fetchEnsNames (imports := Fixtures.online) ["0xa1"] false w).1 in
  let w2 := (fetchEnsNames (imports := Fixtures.online) ["0xa1"] false w1).1 in
  let w3 := (fetchEnsNames (imports := Fixtures.online) ["0xa1"] true w2).1 in
  @isValidEthAddress unit Fixtures.online "0xa1" = true
  ∧ ("0xa1" ∉ ensAddresses (store w))
  ∧ ensResolutions (calls w1) = S (ensResolutions (calls w))
  ∧ fetchEnsNames (imports := Fixtures.online) ["0xa1"] false w1
    = (w1, Js.Normal tt)
  ∧ ensAddresses (store w3) = ensAddresses (store w2)
  ∧ ensResolutions (calls w3) = S (ensResolutions (calls w2)).
Proof.
  intros w w1 w2 w3.
  assert (H1 : @isValidEthAddress unit Fixtures.online "0xa1" = true)
    by reflexivity.
  assert (H2 : "0xa1" ∉ ensAddresses (store w)) by apply not_elem_of_nil.
  split; [exact H1|]. split; [exact H2|].
  destruct (fetchEnsNames_idempotent (imports := Fixtures.online) w)
    as (_ & _ & H).
  exact (H "0xa1" H1 H2).
Defined.

Lemma fetchEthNames_rebuilds_witness :
  let w := mkWorld
             (mkStore ["0xa1"; "0xb0"] {[ "0xdead" := "stale" ]}
                [mkEntry "0xb0" "Bob"] [mkEntry "0xc0" "Carol"])
             tt [] [] [] in
  let addresses := ["0xb0"; "0xc0"; "0xa1"] in
  let result : gmap string string :=
    list_to_map ((λ a, (a, "name of " +:+ a)) <$> addresses) in
  ethNamesAddresses (store w) = addresses
  ∧ @getEthNames unit Fixtures.online addresses (backend w)
    = (tt, Js.Normal result)
  ∧ fetchEthNames (imports := Fixtures.online) w
    = (mkWorld
         (mkStore ["0xa1"; "0xb0"] result
            [mkEntry "0xb0" "Bob"] [mkEntry "0xc0" "Carol"])
         tt [GetEthNames addresses] [] [],
       Js.Normal tt)
  ∧ result !! "0xdead" = None.
Proof.
  intros w addresses result.
  assert (H1 : ethNamesAddresses (store w) = addresses) by reflexivity.
  assert (H2 : @getEthNames unit Fixtures.online addresses (backend w)
               = (tt, Js.Normal result)) by reflexivity.
  split; [exact H1|]. split; [exact H2|]. split; [|reflexivity].
  destruct (fetchEthNames_rebuilds (imports := Fixtures.online) w)
    as (_ & _ & _ & H).
  exact (H tt result H2).
Defined.

(** C8, as stated for every operation, fails on [fetchEnsNames]: the
    worklist is merged before the backend is asked, and stays merged when
    the request is rejected. *)
Lemma fetchEnsNames_mutates_despite_failure :
  let w := initialWorld tt in
  let r := fetchEnsNames (imports := Fixtures.offline) ["0xa1"] false w in
  r.2 = Js.Throw (ThrownError "offline")
  ∧ calls r.1 = [GetEnsNames ["0xa1"]]
  ∧ ensAddresses (store w) = []
  ∧ ensAddresses (store r.1) = ["0xa1"]
  ∧ store r.1 ≠ store w.
Proof.
  split_and!; [reflexivity | reflexivity | reflexivity | reflexivity |].
  intros H. apply (f_equal ensAddresses) in H. vm_compute in H.
  discriminate.
Qed.

Lemma mutations_only_on_backend_success_witness :
  let w := initialWorld tt in
  let e := ThrownError "offline" in
  let bob := [mkEntry "0xb0" "Bob"] in
  let r := fetchEnsNames (imports := Fixtures.offline) ["0xa1"] false w in
  @getEthNames unit Fixtures.offline (ethNamesAddresses (store w))
    (backend w) = (tt, Js.Throw e)
  ∧ @getEthAddressBook unit Fixtures.offline global None (backend w)
    = (tt, Js.Throw e)
  ∧ @addAddressBook unit Fixtures.offline global bob (backend w)
    = (tt, Js.Normal false)
  ∧ @updateAddressBook unit Fixtures.offline private bob (backend w)
    = (tt, Js.Normal false)
  ∧ @deleteAddressBook unit Fixtures.offline global ["0xb0"] (backend w)
    = (tt, Js.Normal false)
  ∧ ["0xa1"] ≠ []
  ∧ r.2 = Js.Throw e
  ∧ @mergedEnsAddresses unit Fixtures.offline (ensAddresses (store w))
      ["0xa1"] ≠ ensAddresses (store w)
  ∧ fetchEthNames (imports := Fixtures.offline) w
    = (mkWorld (store w) tt [GetEthNames []] [e]
         [namesErrorNotification e],
       Js.Normal tt)
  ∧ fetchEthAddressBook (imports := Fixtures.offline) global None w
    = (mkWorld (store w) tt [GetEthAddressBook global None] [e]
         [fetchErrorNotification e],
       Js.Normal tt)
  ∧ (addEthAddressBook (imports := Fixtures.offline) global bob w).1
    = requested w (AddAddressBook global bob) tt
  ∧ (updateEthAddressBook (imports := Fixtures.offline) private bob w).1
    = requested w (UpdateAddressBook private bob) tt
  ∧ (deleteEthAddressBook (imports := Fixtures.offline) global ["0xb0"] w).1
    = requested w (DeleteAddressBook global ["0xb0"]) tt
  ∧ ensAddresses (store r.1) = ["0xa1"]
  ∧ store r.1 = store (withEnsAddresses w ["0xa1"])
  ∧ calls r.1 ≠ calls w
  ∧ store r.1 ≠ store w.
Proof.
  intros w e bob r.
  destruct (mutations_only_on_backend_success (imports := Fixtures.offline)
              w) as (Hnames & Hbook & Hadd & Hupdate & Hdelete & Hens).
  assert (Hne : ["0xa1"] ≠ []) by discriminate.
  assert (Hthrow : r.2 = Js.Throw e) by reflexivity.
  assert (Hchanged :
    @mergedEnsAddresses unit Fixtures.offline (ensAddresses (store w))
      ["0xa1"] ≠ ensAddresses (store w)) by (vm_compute; discriminate).
  destruct (Hens ["0xa1"] false Hne) as (Hmerged & _ & Hfail).
  destruct (Hfail e Hthrow) as (Hstore & Hcalls & _ & _ & Hdiffers).
  do 5 (split; [reflexivity|]).
  split; [exact Hne|]. split; [exact Hthrow|]. split; [exact Hchanged|].
  split; [exact (Hnames tt e eq_refl)|].
  split; [exact (Hbook global None tt e eq_refl)|].
  split; [apply (Hadd global bob tt (Js.Normal false) eq_refl); discriminate|].
  split;
    [apply (Hupdate private bob tt (Js.Normal false) eq_refl); discriminate|].
  split;
    [apply (Hdelete global ["0xb0"] tt (Js.Normal false) eq_refl);
     discriminate|].
  split; [exact Hmerged|]. split; [exact Hstore|]. split; [exact Hcalls|].
  exact (Hdiffers Hchanged).
Defined.

End EthNamesFacts.

(** * Further properties of the asset info store *)

Module AssetInfoMore.

Import AssetInfoRetrieval AssetInfoSpec AssetInfoFacts.

Section Facts.

Context `{imports : Imports}.

Lemma getAssociated_cases refs id :
  getAssociatedAssetIdentifier refs id
  = if treatEth2AsEth refs && String.eqb id "ETH2" then Js.Str "ETH"
    else if bool_decide (id ∈ Js.objectPrototypeKeys) then Js.Inherited id
    else Js.Str id.
Proof.
  unfold getAssociatedAssetIdentifier, assetAssociationMap, Js.objectGet.
  destruct (treatEth2AsEth refs); simpl.
  - destruct (String.eqb_spec id "ETH2") as [->|Hne].
    + by rewrite lookup_insert_eq.
    + assert ("ETH2" ≠ id) by congruence.
      rewrite lookup_insert_ne by done. rewrite lookup_empty.
      by case_bool_decide.
  - rewrite lookup_empty. by case_bool_decide.
Qed.

Lemma getAssociated_identity refs id :
  treatEth2AsEth refs = false ∨ id ≠ "ETH2" →
  id ∉ Js.objectPrototypeKeys →
  getAssociatedAssetIdentifier refs id = Js.Str id.
Proof.
  intros H Hown. rewrite getAssociated_cases.
  rewrite (bool_decide_eq_false_2 _ Hown).
  destruct H as [-> | Hne]; [done|].
  destruct (String.eqb_spec id "ETH2"); [done|]. by rewrite andb_false_r.
Qed.

Lemma assetInfo_normal refs identifierRef enableAssociation isCollectionParent :
  ∃ result,
    assetInfo refs identifierRef enableAssociation isCollectionParent
    = Js.Normal result.
Proof.
  unfold assetInfo. destruct identifierRef as [id|]; [|by eexists].
  destruct (String.eqb id ""); [by eexists|].
  destruct (isPending refs id); [by eexists|].
  destruct (customFlag _) eqn:Hc; [|by eexists].
  apply customFlag_true_iff in Hc as (d & -> & _). by eexists.
Qed.

(** X1: what the association lookup answers, for every identifier: ETH
    for ETH2 under the [treatEth2AsEth] setting; otherwise, for one of the
    twelve names a plain object inherits from [Object.prototype], the
    inherited member; and for every other identifier the identifier
    itself.  So the identifier comes back unchanged exactly when it is
    neither ETH2 under the setting nor an inherited name. *)
Theorem association_only_eth2 (refs : Refs) (id : string) :
  getAssociatedAssetIdentifier refs id
  = (if treatEth2AsEth refs && String.eqb id "ETH2" then Js.Str "ETH"
     else if bool_decide (id ∈ Js.objectPrototypeKeys) then Js.Inherited id
     else Js.Str id)
  ∧ (getAssociatedAssetIdentifier refs id = Js.Str id
     ↔ ¬ (treatEth2AsEth refs = true ∧ id = "ETH2")
       ∧ id ∉ Js.objectPrototypeKeys).
Proof.
  split; [apply getAssociated_cases|].
  rewrite getAssociated_cases.
  destruct (treatEth2AsEth refs); simpl.
  - destruct (String.eqb_spec id "ETH2") as [->|Hne].
    + split; [discriminate|]. intros [H _]. by destruct H.
    + case_bool_decide as Hk.
      * split; [discriminate|]. by intros [_ ?].
      * split; [|done]. intros _. split; [|done]. by intros [_ ?].
  - case_bool_decide as Hk.
    + split; [discriminate|]. by intros [_ ?].
    + split; [|done]. intros _. split; [|done]. by intros [? _].
Qed.

(** X2: the [enableAssociation] argument matters for ETH2 under the
    [treatEth2AsEth] setting and for the names inherited from
    [Object.prototype] only: for any other identifier [assetInfo],
    [assetSymbol], [assetName] and [tokenAddress] give the same result with
    and without association. *)
Theorem enableAssociation_irrelevant (refs : Refs) (id : string)
    (isCollectionParent : bool) :
  treatEth2AsEth refs = false ∨ id ≠ "ETH2" →
  id ∉ Js.objectPrototypeKeys →
  assetInfo refs (Some id) true isCollectionParent
  = assetInfo refs (Some id) false isCollectionParent
  ∧ assetSymbol refs (Some id) true = assetSymbol refs (Some id) false
  ∧ assetName refs (Some id) true = assetName refs (Some id) false
  ∧ tokenAddress refs (Some id) true = tokenAddress refs (Some id) false.
Proof.
  intros H Hown. pose proof (getAssociated_identity refs id H Hown) as Hid.
  assert (Hinfo : ∀ icp,
    assetInfo refs (Some id) true icp = assetInfo refs (Some id) false icp).
  { intros icp. unfold assetInfo. by rewrite Hid. }
  split_and!.
  - apply Hinfo.
  - unfold assetSymbol. by rewrite Hinfo.
  - unfold assetName. by rewrite Hinfo.
  - unfold tokenAddress. by rewrite Hid.
Qed.

(** X3: [assetSymbol] and [assetName] never throw, and both are the empty
    string whenever [assetInfo] is [null] for the identifier. *)
Theorem projections_empty_when_null (refs : Refs)
    (identifierRef : option string) (enableAssociation : bool) :
  ∃ s n,
    assetSymbol refs identifierRef enableAssociation = Js.Normal s
    ∧ assetName refs identifierRef enableAssociation = Js.Normal n
    ∧ (assetInfo refs identifierRef enableAssociation true = Js.Normal None →
       s = "" ∧ n = "").
Proof.
  destruct (assetInfo_normal refs identifierRef enableAssociation true)
    as (result & Hresult).
  unfold assetSymbol, assetName.
  destruct identifierRef as [id|]; [|by eexists _, _].
  destruct (String.eqb_spec id "") as [->|Hne]; [by eexists _, _|].
  rewrite Hresult. simpl. eexists _, _. split_and!; [done | done |].
  intros [= ->]. done.
Qed.

(** The value a single-field projection shows for a field. *)
Lemma infoField_Some f r :
  infoField f (Js.Normal (Some r))
  = Js.Normal (Js.nullish (Js.or (f r) None) "").
Proof. done. Qed.

(** X4: for a custom asset the two projections coincide: [assetSymbol] and
    [assetName] both show the cached name (the empty string when the record
    has none). *)
Theorem custom_asset_projections (refs : Refs) (id : string)
    (enableAssociation : bool) (d : AssetInfo) :
  id ≠ "" →
  isPending refs id = false →
  retrieve refs (keyOf refs id enableAssociation) = Some d →
  isCustomAsset d = Some true ∨ assetType d = Some CUSTOM_ASSET →
  assetSymbol refs (Some id) enableAssociation
  = assetName refs (Some id) enableAssociation
  ∧ assetName refs (Some id) enableAssociation
    = Js.Normal (if Js.truthy (name d) then Js.nullish (name d) "" else "").
Proof.
  intros Hid Hp Hd Hflag.
  assert (Hc : customFlag (Some d) = true)
    by (apply customFlag_true_iff; eauto).
  unfold assetSymbol, assetName.
  destruct (String.eqb_spec id ""); [done|].
  rewrite (assetInfo_custom refs id enableAssociation true d) by done.
  rewrite !infoField_Some. simpl. split; [done|].
  unfold Js.or. by destruct (Js.truthy (name d)).
Qed.

Lemma or_fallback_truthy v s :
  s ≠ "" → Js.truthy (Js.or v (Some s)) = true.
Proof.
  intros Hs. unfold Js.or. destruct (Js.truthy v) eqn:Hv; [done|].
  by apply JsFacts.truthy_Some_ne.
Qed.

Lemma shown_truthy v :
  Js.truthy v = true → Js.nullish (Js.or v None) "" ≠ "".
Proof.
  intros Hv. rewrite JsFacts.or_truthy_l by done.
  by apply JsFacts.truthy_inv in Hv as (s & -> & Hs).
Qed.

(** X5: an EVM-shaped identifier that is resolved (not pending, not a
    custom asset) never shows empty: [assetSymbol] and [assetName] are
    non-empty strings, whatever the cache holds. *)
Theorem evm_identifier_never_empty (refs : Refs) (id : string)
    (enableAssociation : bool) :
  id ≠ "" →
  isPending refs id = false →
  customFlag (retrieve refs (keyOf refs id enableAssociation)) = false →
  isEvmIdentifier id = true →
  ∃ s n,
    assetSymbol refs (Some id) enableAssociation = Js.Normal s
    ∧ assetName refs (Some id) enableAssociation = Js.Normal n
    ∧ s ≠ "" ∧ n ≠ "".
Proof.
  intros Hid Hp Hc Hevm.
  assert (Hfb : getAssetNameFallback id ≠ "").
  { unfold getAssetNameFallback. rewrite Hevm. done. }
  unfold assetSymbol, assetName.
  destruct (String.eqb_spec id ""); [done|].
  rewrite (assetInfo_plain refs id enableAssociation true) by done.
  rewrite !infoField_Some. simpl. eexists _, _.
  split_and!; [done | done | |]; by apply shown_truthy, or_fallback_truthy.
Qed.

(** X6: [assetInfo] rewrites name, symbol and the custom flag only: the
    identifier, custom asset type, collection id and asset type of a
    returned record are those of the cached record (all missing when the
    cache has none), and the flag is the computed custom flag. *)
Theorem assetInfo_keeps_other_fields (refs : Refs) (id : string)
    (enableAssociation isCollectionParent : bool) (r : AssetInfo) :
  assetInfo refs (Some id) enableAssociation isCollectionParent
    = Js.Normal (Some r) →
  let data := retrieve refs (keyOf refs id enableAssociation) in
  identifier r = data ≫= identifier
  ∧ customAssetType r = data ≫= customAssetType
  ∧ collectionId r = data ≫= collectionId
  ∧ assetType r = data ≫= assetType
  ∧ isCustomAsset r = Some (customFlag data).
Proof.
  intros Hr data. subst data. unfold assetInfo, keyOf in *.
  destruct (String.eqb id ""); [done|].
  destruct (isPending refs id); [done|].
  destruct (customFlag _) eqn:Hc.
  - pose proof Hc as (d & Hd & _)%customFlag_true_iff.
    rewrite Hd in Hr |- *. by injection Hr as <-.
  - injection Hr as <-. simpl. by destruct (retrieve refs _).
Qed.

(** X7: the record of a non-custom asset always carries a name and a
    symbol (never [undefined]); under a non-EVM identifier each is the
    empty string exactly when neither the collection override nor the
    cached record provides a non-empty one. *)
Theorem plain_asset_name_defined (refs : Refs) (id : string)
    (enableAssociation isCollectionParent : bool) :
  id ≠ "" →
  isPending refs id = false →
  customFlag (retrieve refs (keyOf refs id enableAssociation)) = false →
  let data := retrieve refs (keyOf refs id enableAssociation) in
  let override := collectionDataOf refs isCollectionParent data in
  ∃ r n s,
    assetInfo refs (Some id) enableAssociation isCollectionParent
      = Js.Normal (Some r)
    ∧ name r = Some n
    ∧ symbol r = Some s
    ∧ (isEvmIdentifier id = false →
       (n = "" ↔ ¬ present (override ≫= collectionName)
                 ∧ ¬ present (data ≫= name))
       ∧ (s = "" ↔ ¬ present (override ≫= collectionSymbol)
                   ∧ ¬ present (data ≫= symbol))).
Proof.
  intros Hid Hp Hc data override.
  assert (Hchain : ∀ a b fb,
    ∃ v, Js.or (Js.or a b) (Some fb) = Some v
         ∧ (fb = "" → v = "" ↔ ¬ present a ∧ ¬ present b)).
  { intros a b fb. unfold Js.or.
    destruct (Js.truthy a) eqn:Ha.
    - rewrite Ha. apply JsFacts.truthy_inv in Ha as (v & -> & Hv).
      exists v. split; [done|]. intros _. split; [done|].
      intros [Hna _]. destruct Hna. by exists v.
    - apply JsFacts.truthy_false_inv in Ha.
      destruct (Js.truthy b) eqn:Hb.
      + apply JsFacts.truthy_inv in Hb as (v & -> & Hv).
        exists v. split; [done|]. intros _. split; [done|].
        intros [_ Hnb]. destruct Hnb. by exists v.
      + apply JsFacts.truthy_false_inv in Hb. exists fb.
        split; [done|]. by intros ->. }
  destruct (Hchain (override ≫= collectionName) (data ≫= name)
              (getAssetNameFallback id)) as (n & Hn & Hn').
  destruct (Hchain (override ≫= collectionSymbol) (data ≫= symbol)
              (getAssetNameFallback id)) as (s & Hs & Hs').
  eexists _, n, s. split; [by apply assetInfo_plain|].
  simpl. split_and!; [done | done |].
  intros Hevm.
  assert (Hfb : getAssetNameFallback id = "")
    by (unfold getAssetNameFallback; by rewrite Hevm).
  split; [by apply Hn' | by apply Hs'].
Qed.

End Facts.

#[local] Existing Instance Fixtures.eip155Imports.

Lemma enableAssociation_irrelevant_witness :
  (treatEth2AsEth Fixtures.refs = false ∨ "A" ≠ "ETH2")
  ∧ ("A" ∉ Js.objectPrototypeKeys)
  ∧ assetInfo Fixtures.refs (Some "A") true true
    = assetInfo Fixtures.refs (Some "A") false true
  ∧ assetSymbol Fixtures.refs (Some "A") true
    = assetSymbol Fixtures.refs (Some "A") false
  ∧ assetName Fixtures.refs (Some "A") true
    = assetName Fixtures.refs (Some "A") false
  ∧ tokenAddress Fixtures.refs (Some "A") true
    = tokenAddress Fixtures.refs (Some "A") false.
Proof.
  assert (H : treatEth2AsEth Fixtures.refs = false ∨ "A" ≠ "ETH2")
    by (right; done).
  assert (H' : "A" ∉ Js.objectPrototypeKeys).
  { apply (bool_decide_unpack _). vm_compute. exact I. }
  split; [exact H|]. split; [exact H'|].
  exact (enableAssociation_irrelevant Fixtures.refs "A" true H H').
Defined.

Lemma projections_empty_when_null_witness :
  assetInfo Fixtures.refs (Some "ETH") true true = Js.Normal None
  ∧ ∃ s n,
      assetSymbol Fixtures.refs (Some "ETH") true = Js.Normal s
      ∧ assetName Fixtures.refs (Some "ETH") true = Js.Normal n
      ∧ s = "" ∧ n = "".
Proof.
  assert (H : assetInfo Fixtures.refs (Some "ETH") true true = Js.Normal None)
    by reflexivity.
  split; [exact H|].
  destruct (projections_empty_when_null Fixtures.refs (Some "ETH") true)
    as (s & n & Hs & Hn & Hempty).
  exists s, n. split; [exact Hs|]. split; [exact Hn|]. exact (Hempty H).
Defined.

Lemma custom_asset_projections_witness :
  "nft-1" ≠ ""
  ∧ isPending Fixtures.refs "nft-1" = false
  ∧ retrieve Fixtures.refs (keyOf Fixtures.refs "nft-1" true)
    = Some Fixtures.collectible
  ∧ (isCustomAsset Fixtures.collectible = Some true
     ∨ assetType Fixtures.collectible = Some CUSTOM_ASSET)
  ∧ assetSymbol Fixtures.refs (Some "nft-1") true
    = assetName Fixtures.refs (Some "nft-1") true
  ∧ assetName Fixtures.refs (Some "nft-1") true
    = Js.Normal
        (if Js.truthy (name Fixtures.collectible)
         then Js.nullish (name Fixtures.collectible) "" else "").
Proof.
  assert (H1 : "nft-1" ≠ "") by done.
  assert (H2 : isPending Fixtures.refs "nft-1" = false) by reflexivity.
  assert (H3 : retrieve Fixtures.refs (keyOf Fixtures.refs "nft-1" true)
               = Some Fixtures.collectible) by reflexivity.
  assert (H4 : isCustomAsset Fixtures.collectible = Some true
               ∨ assetType Fixtures.collectible = Some CUSTOM_ASSET)
    by (left; reflexivity).
  repeat (split; [assumption|]).
  exact (custom_asset_projections Fixtures.refs "nft-1" true
           Fixtures.collectible H1 H2 H3 H4).
Defined.

Lemma evm_identifier_never_empty_witness :
  "eip155:1/erc20:0xABC" ≠ ""
  ∧ isPending Fixtures.refs "eip155:1/erc20:0xABC" = false
  ∧ customFlag
      (retrieve Fixtures.refs
         (keyOf Fixtures.refs "eip155:1/erc20:0xABC" true)) = false
  ∧ isEvmIdentifier "eip155:1/erc20:0xABC" = true
  ∧ ∃ s n,
      assetSymbol Fixtures.refs (Some "eip155:1/erc20:0xABC") true
        = Js.Normal s
      ∧ assetName Fixtures.refs (Some "eip155:1/erc20:0xABC") true
        = Js.Normal n
      ∧ s ≠ "" ∧ n ≠ "".
Proof.
  assert (H1 : "eip155:1/erc20:0xABC" ≠ "") by done.
  assert (H2 : isPending Fixtures.refs "eip155:1/erc20:0xABC" = false)
    by reflexivity.
  assert (H3 : customFlag
                 (retrieve Fixtures.refs
                    (keyOf Fixtures.refs "eip155:1/erc20:0xABC" true))
               = false) by reflexivity.
  assert (H4 : isEvmIdentifier "eip155:1/erc20:0xABC" = true) by reflexivity.
  repeat (split; [assumption|]).
  exact (evm_identifier_never_empty Fixtures.refs "eip155:1/erc20:0xABC" true
           H1 H2 H3 H4).
Defined.

Lemma assetInfo_keeps_other_fields_witness :
  let r := mkAssetInfo (Some "A") (Some "Collection A") (Some "COLA")
             (Some false) None (Some "X") None in
  assetInfo Fixtures.refs (Some "A") true true = Js.Normal (Some r)
  ∧ let data := retrieve Fixtures.refs (keyOf Fixtures.refs "A" true) in
    identifier r = data ≫= identifier
    ∧ customAssetType r = data ≫= customAssetType
    ∧ collectionId r = data ≫= collectionId
    ∧ assetType r = data ≫= assetType
    ∧ isCustomAsset r = Some (customFlag data).
Proof.
  intros r.
  assert (H : assetInfo Fixtures.refs (Some "A") true true
              = Js.Normal (Some r)) by reflexivity.
  split; [exact H|].
  exact (assetInfo_keeps_other_fields Fixtures.refs "A" true true r H).
Defined.

Lemma plain_asset_name_defined_witness :
  "A" ≠ ""
  ∧ isPending Fixtures.refs "A" = false
  ∧ customFlag (retrieve Fixtures.refs (keyOf Fixtures.refs "A" true)) = false
  ∧ isEvmIdentifier "A" = false
  ∧ let data := retrieve Fixtures.refs (keyOf Fixtures.refs "A" true) in
    let override := collectionDataOf Fixtures.refs false data in
    ∃ r n s,
      assetInfo Fixtures.refs (Some "A") true false = Js.Normal (Some r)
      ∧ name r = Some n
      ∧ symbol r = Some s
      ∧ (n = "" ↔ ¬ present (override ≫= collectionName)
                  ∧ ¬ present (data ≫= name))
      ∧ (s = "" ↔ ¬ present (override ≫= collectionSymbol)
                  ∧ ¬ present (data ≫= symbol)).
Proof.
  assert (H1 : "A" ≠ "") by done.
  assert (H2 : isPending Fixtures.refs "A" = false) by reflexivity.
  assert (H3 : customFlag (retrieve Fixtures.refs
                 (keyOf Fixtures.refs "A" true)) = false) by reflexivity.
  assert (H4 : isEvmIdentifier "A" = false) by reflexivity.
  repeat (split; [assumption|]).
  destruct (plain_asset_name_defined Fixtures.refs "A" true false H1 H2 H3)
    as (r & n & s & Hr & Hn & Hs & Hempty).
  exists r, n, s. split; [exact Hr|]. split; [exact Hn|]. split; [exact Hs|].
  exact (Hempty H4).
Defined.

End AssetInfoMore.

(** * Further properties of the name store *)

Module EthNamesMore.

Import EthNamesStore EthNamesSpec EthNamesMoreSpec EthNamesFacts.

Section Facts.

Context {B : Type} `{imports : Imports B}.

Implicit Types (w : World B) (a addr : string).

(** What [fetchEthNames] leaves alone. *)
Lemma fetchEthNames_frame w :
  let w' := (fetchEthNames w).1 in
  ensAddresses (store w') = ensAddresses (store w)
  ∧ ethAddressBookGlobal (store w') = ethAddressBookGlobal (store w)
  ∧ ethAddressBookPrivate (store w') = ethAddressBookPrivate (store w)
  ∧ calls w' = calls w ++ [GetEthNames (ethNamesAddresses (store w))]
  ∧ (reported w → reported w')
  ∧ (fetchEthNames w).2 = Js.Normal tt.
Proof.
  rewrite fetchEthNames_run. simpl.
  destruct (getEthNames _ _) as [b' [result|e]]; simpl;
    split_and!; try done.
  unfold reported. simpl. intros Hw. rewrite !map_app, Hw. done.
Qed.

Lemma added_app w w' l : calls w' = calls w ++ l → added w w' = l.
Proof. intros H. unfold added. rewrite H. apply drop_app_length. Qed.

Lemma requested_calls w c b' : calls (requested w c b') = calls w ++ [c].
Proof. done. Qed.

(** X8: [fetchEthNames] and [fetchEthAddressBook] never reject, whatever
    the backend answers; an address-book mutation rejects only when its own
    backend request rejects, and then with the same value. *)
Theorem fetches_never_reject (w : World B) :
  (fetchEthNames w).2 = Js.Normal tt
  ∧ (∀ location addresses,
       (fetchEthAddressBook location addresses w).2 = Js.Normal tt)
  ∧ (∀ location entries e,
       (addEthAddressBook location entries w).2 = Js.Throw e →
       (addAddressBook location entries (backend w)).2 = Js.Throw e)
  ∧ (∀ location entries e,
       (updateEthAddressBook location entries w).2 = Js.Throw e →
       (updateAddressBook location entries (backend w)).2 = Js.Throw e)
  ∧ (∀ location addresses e,
       (deleteEthAddressBook location addresses w).2 = Js.Throw e →
       (deleteAddressBook location addresses (backend w)).2 = Js.Throw e).
Proof.
  assert (Hbook : ∀ w0 location addresses,
    (fetchEthAddressBook location addresses w0).2 = Js.Normal tt).
  { intros w0 location addresses. rewrite fetchEthAddressBook_run. simpl.
    destruct (getEthAddressBook _ _ _) as [b' [result|e]]; [|done].
    apply fetchEthNames_frame. }
  split_and!.
  - apply fetchEthNames_frame.
  - apply Hbook.
  - intros location entries e. rewrite addEthAddressBook_run. simpl.
    destruct (addAddressBook _ _ _) as [b' [[|]|e']]; simpl;
      [by rewrite Hbook | done | by intros [= ->]].
  - intros location entries e. rewrite updateEthAddressBook_run. simpl.
    destruct (updateAddressBook _ _ _) as [b' [[|]|e']]; simpl;
      [by rewrite Hbook | done | by intros [= ->]].
  - intros location addresses e. rewrite deleteEthAddressBook_run. simpl.
    destruct (deleteAddressBook _ _ _) as [b' [[|]|e']]; simpl;
      [by rewrite Hbook | done | by intros [= ->]].
Qed.

(** X9: [fetchEnsNames] has no error handling of its own: it rejects
    exactly with the value its ENS request (or the wait for the task)
    rejected with.  The names mapping, the mirrors, the log and the
    notifications are then as before, and no names were requested. *)
Theorem fetchEnsNames_rejection (addresses : list string)
    (forceUpdate : bool) (w : World B) (e : Thrown) :
  (fetchEnsNames addresses forceUpdate w).2 = Js.Throw e →
  let merged := mergedEnsAddresses (ensAddresses (store w)) addresses in
  let w' := (fetchEnsNames addresses forceUpdate w).1 in
  ethNames (store w') = ethNames (store w)
  ∧ ethAddressBookGlobal (store w') = ethAddressBookGlobal (store w)
  ∧ ethAddressBookPrivate (store w') = ethAddressBookPrivate (store w)
  ∧ logged w' = logged w
  ∧ notifications w' = notifications w
  ∧ List.filter isGetEthNames (added w w') = []
  ∧ ((forceUpdate = false
      ∧ (getEnsNames merged (backend w)).2 = Js.Throw e)
     ∨ (forceUpdate = true
        ∧ ((getEnsNamesTask merged (backend w)).2 = Js.Throw e
           ∨ ∃ b1 taskId,
               getEnsNamesTask merged (backend w) = (b1, Js.Normal taskId)
               ∧ (awaitTask taskId b1).2 = Js.Throw e))).
Proof.
  intros Hthrow merged w'. subst w'. revert Hthrow.
  rewrite fetchEnsNames_run. fold merged.
  case_bool_decide; [done|].
  destruct (negb forceUpdate && _); [done|].
  destruct (negb _); [done|].
  destruct forceUpdate.
  - destruct (getEnsNamesTask merged (backend w)) as [b1 [taskId|e1]] eqn:Ht.
    + destruct (awaitTask taskId b1) as [b2 [[]|e2]] eqn:Ha; cbv zeta.
      * intros Hthrow. exfalso.
        match type of Hthrow with
        | (fetchEthNames ?w0).2 = _ =>
          destruct (fetchEthNames_frame w0) as (_ & _ & _ & _ & _ & Hn)
        end. congruence.
      * simpl. intros [= ->]. split_and!; try done.
        { by rewrite (added_app _ _ [GetEnsNamesTask merged; AwaitTask taskId])
            by (simpl; by rewrite <- app_assoc). }
        right. split; [done|]. right. exists b1, taskId. by rewrite Ha.
    + simpl. intros [= ->]. split_and!; try done.
      { by rewrite (added_app _ _ [GetEnsNamesTask merged]). }
      right. split; [done|]. by left.
  - destruct (getEnsNames merged (backend w)) as [b1 [[]|e1]] eqn:Hg.
    + intros Hthrow. exfalso.
      match type of Hthrow with
      | (fetchEthNames ?w0).2 = _ =>
        destruct (fetchEthNames_frame w0) as (_ & _ & _ & _ & _ & Hn)
      end. congruence.
    + simpl. intros [= ->]. split_and!; try done.
      { by rewrite (added_app _ _ [GetEnsNames merged]). }
      left. done.
Qed.

Lemma fetchEthAddressBook_frame location addresses w :
  let w' := (fetchEthAddressBook location addresses w).1 in
  (reported w → reported w')
  ∧ ∀ other, sameLocation location other = false →
      addressBookOf (store w') other = addressBookOf (store w) other.
Proof.
  simpl. rewrite fetchEthAddressBook_run. simpl.
  destruct (getEthAddressBook _ _ _) as [b' [result|e]]; simpl.
  - match goal with
    | |- context [fetchEthNames ?w0] =>
      destruct (fetchEthNames_frame w0) as (_ & Hg & Hp & _ & Hrep & _)
    end.
    split; [exact Hrep|].
    intros other Hother. by destruct location, other.
  - split; [|done]. unfold reported. simpl. intros Hw.
    by rewrite !map_app, Hw.
Qed.

Lemma fetchEnsNames_frame addresses forceUpdate w :
  let w' := (fetchEnsNames addresses forceUpdate w).1 in
  (reported w → reported w')
  ∧ ethAddressBookGlobal (store w') = ethAddressBookGlobal (store w)
  ∧ ethAddressBookPrivate (store w') = ethAddressBookPrivate (store w).
Proof.
  simpl. rewrite fetchEnsNames_run.
  set (merged := mergedEnsAddresses (ensAddresses (store w)) addresses).
  case_bool_decide; [done|].
  destruct (negb forceUpdate && _); [done|].
  destruct (negb _); [done|].
  destruct forceUpdate.
  - destruct (getEnsNamesTask merged (backend w)) as [b1 [taskId|e1]];
      [|done].
    destruct (awaitTask taskId b1) as [b2 [[]|e2]]; cbv zeta; [|done].
    match goal with
    | |- context [fetchEthNames ?w0] =>
      destruct (fetchEthNames_frame w0) as (_ & Hg & Hp & _ & Hrep & _)
    end.
    split_and!; [exact Hrep | by rewrite Hg | by rewrite Hp].
  - destruct (getEnsNames merged (backend w)) as [b1 [[]|e1]]; [|done].
    match goal with
    | |- context [fetchEthNames ?w0] =>
      destruct (fetchEthNames_frame w0) as (_ & Hg & Hp & _ & Hrep & _)
    end.
    split_and!; [exact Hrep | by rewrite Hg | by rewrite Hp].
Qed.

Lemma perform_frame op w :
  let w' := (perform op w).1 in
  (reported w → reported w')
  ∧ ∀ location, refetches op location = false →
      addressBookOf (store w') location = addressBookOf (store w) location.
Proof.
  destruct op as [addresses forceUpdate| |location addresses
                 |location entries|location entries|location addresses];
    simpl.
  - destruct (fetchEnsNames_frame addresses forceUpdate w) as (Hrep & Hg & Hp).
    split; [done|]. by intros [] _.
  - destruct (fetchEthNames_frame w) as (_ & Hg & Hp & _ & Hrep & _).
    split; [done|]. by intros [] _.
  - apply fetchEthAddressBook_frame.
  - rewrite addEthAddressBook_run. simpl.
    destruct (addAddressBook _ _ _) as [b' [[|]|e]]; [|done|done].
    apply (fetchEthAddressBook_frame location None (requested w _ b')).
  - rewrite updateEthAddressBook_run. simpl.
    destruct (updateAddressBook _ _ _) as [b' [[|]|e]]; [|done|done].
    apply (fetchEthAddressBook_frame location None (requested w _ b')).
  - rewrite deleteEthAddressBook_run. simpl.
    destruct (deleteAddressBook _ _ _) as [b' [[|]|e]]; [|done|done].
    apply (fetchEthAddressBook_frame location None (requested w _ b')).
Qed.

(** X10: errors are reported in pairs: after any sequence of store
    operations from the initial store, the notifications raised are exactly
    as many as the errors logged, and each notification carries the message
    of the error logged with it. *)
Theorem errors_logged_and_notified (b : B) (ops : list Operation) :
  let w := run (initialWorld b) ops in
  map messageOf (logged w) = map messageParam (notifications w)
  ∧ length (logged w) = length (notifications w)
  ∧ Forall (λ n, display n = true) (notifications w).
Proof.
  intros w.
  assert (Hrun : ∀ ops w0,
    reported w0 ∧ Forall (λ n, display n = true) (notifications w0) →
    reported (run w0 ops)
    ∧ Forall (λ n, display n = true) (notifications (run w0 ops))).
  { clear. induction ops as [|op ops IH]; intros w0 Hw0; [done|].
    simpl. apply IH. destruct Hw0 as [Hrep Hdisp].
    split; [by apply perform_frame|].
    clear IH Hrep.
    assert (Hnames : ∀ w1,
      Forall (λ n, display n = true) (notifications w1) →
      Forall (λ n, display n = true) (notifications (fetchEthNames w1).1)).
    { intros w1 H1. rewrite fetchEthNames_run. simpl.
      destruct (getEthNames _ _) as [b' [result|e]]; simpl; [done|].
      apply Forall_app. split; [done|]. by constructor. }
    assert (Hbook : ∀ w1 location addresses,
      Forall (λ n, display n = true) (notifications w1) →
      Forall (λ n, display n = true)
        (notifications (fetchEthAddressBook location addresses w1).1)).
    { intros w1 location addresses H1. rewrite fetchEthAddressBook_run. simpl.
      destruct (getEthAddressBook _ _ _) as [b' [result|e]]; simpl.
      - by apply Hnames.
      - apply Forall_app. split; [done|]. by constructor. }
    destruct op as [addresses forceUpdate| |location addresses
                   |location entries|location entries|location addresses];
      simpl.
    - rewrite fetchEnsNames_run.
      set (merged := mergedEnsAddresses (ensAddresses (store w0)) addresses).
      case_bool_decide; [done|].
      destruct (negb forceUpdate && _); [done|].
      destruct (negb _); [done|].
      destruct forceUpdate.
      + destruct (getEnsNamesTask merged (backend w0)) as [b1 [taskId|e1]];
          [|done].
        destruct (awaitTask taskId b1) as [b2 [[]|e2]]; cbv zeta; [|done].
        by apply Hnames.
      + destruct (getEnsNames merged (backend w0)) as [b1 [[]|e1]]; [|done].
        by apply Hnames.
    - by apply Hnames.
    - by apply Hbook.
    - rewrite addEthAddressBook_run. simpl.
      destruct (addAddressBook _ _ _) as [b' [[|]|e]]; [|done|done].
      by apply Hbook.
    - rewrite updateEthAddressBook_run. simpl.
      destruct (updateAddressBook _ _ _) as [b' [[|]|e]]; [|done|done].
      by apply Hbook.
    - rewrite deleteEthAddressBook_run. simpl.
      destruct (deleteAddressBook _ _ _) as [b' [[|]|e]]; [|done|done].
      by apply Hbook. }
  destruct (Hrun ops (initialWorld b)) as [Hrep Hdisp].
  { split; [done | constructor]. }
  fold w in Hrep, Hdisp. split_and!; [done | | done].
  unfold reported in Hrep.
  apply (f_equal length) in Hrep. by rewrite !length_map in Hrep.
Qed.

(** X11: an operation touches the mirror of a location only when it is an
    address-book operation on that location: [fetchEnsNames] and
    [fetchEthNames] leave both mirrors as they are, and an address-book
    operation on one location leaves the other location's mirror. *)
Theorem mirrors_change_by_location_only (op : Operation) (w : World B)
    (location : EthAddressBookLocation) :
  refetches op location = false →
  addressBookOf (store (perform op w).1) location
  = addressBookOf (store w) location.
Proof. intros H. by apply perform_frame. Qed.

Lemma bool_filter_app_id {A} (f : A → bool) (l l' : list A) :
  Forall (λ x, f x = true) l →
  List.filter f (l ++ l') = l ++ List.filter f l'.
Proof. intros Hl. by rewrite List.filter_app, bool_filter_all. Qed.

(** The merged worklist of a duplicate-free worklist of valid addresses:
    the worklist itself, then the valid new addresses not on it, each
    once. *)
Lemma merged_appends cur new :
  worklistOk cur →
  mergedEnsAddresses cur new
  = cur ++ List.filter isValidEthAddress (dedupFrom cur new).
Proof.
  intros [Hvalid Hnd]. unfold mergedEnsAddresses.
  rewrite filter_uniqueStrings. unfold dedup.
  rewrite dedupFrom_app. simpl.
  rewrite dedupFrom_NoDup by (done || intros; apply not_elem_of_nil).
  by apply bool_filter_app_id.
Qed.

Lemma reachable_worklistOk (b : B) ops :
  worklistOk (ensAddresses (store (run (initialWorld b) ops))).
Proof.
  apply run_worklist. split; constructor.
Qed.

(** X12: in any state the store can reach, [updateEnsAddresses] keeps
    the worklist entries at their positions and appends the new valid
    addresses not yet on it, each once, in order of first occurrence; it
    answers [true] exactly when it appended something, that is, when some
    given address is valid and not yet on the worklist. *)
Theorem updateEnsAddresses_appends (b : B) (ops : list Operation)
    (newAddresses : list string) :
  let w := run (initialWorld b) ops in
  let fresh :=
    List.filter isValidEthAddress
      (dedupFrom (ensAddresses (store w)) newAddresses) in
  ∃ changed,
    (updateEnsAddresses newAddresses w).2 = Js.Normal changed
    ∧ ensAddresses (store (updateEnsAddresses newAddresses w).1)
      = ensAddresses (store w) ++ fresh
    ∧ (changed = true ↔ fresh ≠ [])
    ∧ (changed = true ↔
       ∃ a, a ∈ newAddresses ∧ isValidEthAddress a = true
            ∧ a ∉ ensAddresses (store w)).
Proof.
  intros w fresh.
  pose proof (reachable_worklistOk b ops) as Hok. fold w in Hok.
  pose proof (merged_appends _ newAddresses Hok) as Hm. fold fresh in Hm.
  assert (Hin : ∀ a, a ∈ fresh ↔
    a ∈ newAddresses ∧ isValidEthAddress a = true
    ∧ a ∉ ensAddresses (store w)).
  { intros a. subst fresh.
    rewrite elem_of_bool_filter, elem_of_dedupFrom. tauto. }
  assert (Hfresh : fresh ≠ [] ↔
    ∃ a, a ∈ newAddresses ∧ isValidEthAddress a = true
         ∧ a ∉ ensAddresses (store w)).
  { split.
    - destruct fresh as [|a fresh']; [done|]. intros _.
      exists a. apply Hin. left.
    - intros (a & Ha). apply Hin in Ha. intros Hnil.
      rewrite Hnil in Ha. by apply elem_of_nil in Ha. }
  rewrite updateEnsAddresses_run. simpl. rewrite Hm.
  clearbody fresh. case_bool_decide as Hsame; simpl.
  - assert (fresh = []) as ->.
    { apply (app_inv_head (ensAddresses (store w))).
      by rewrite app_nil_r. }
    exists false. rewrite app_nil_r.
    split_and!; [done | done | | ].
    + split; [done|]. by intros [].
    + rewrite <- Hfresh. split; [done|]. by intros [].
  - assert (fresh ≠ []) as Hne.
    { intros ->. by rewrite app_nil_r in Hsame. }
    exists true. split_and!; [done | done | done |].
    rewrite <- Hfresh. done.
Qed.

Lemma valid_dedupFrom_ext seen seen' l :
  (∀ a, isValidEthAddress a = true → a ∈ seen ↔ a ∈ seen') →
  List.filter isValidEthAddress (dedupFrom seen l)
  = List.filter isValidEthAddress (dedupFrom seen' l).
Proof.
  revert seen seen'. induction l as [|x l IH]; intros seen seen' Hs; [done|].
  assert (Hnext : ∀ a, isValidEthAddress a = true →
            a ∈ seen ++ [x] ↔ a ∈ seen' ++ [x]).
  { intros a Ha. rewrite !elem_of_app. by rewrite (Hs a Ha). }
  simpl. destruct (isValidEthAddress x) eqn:Hx.
  - rewrite (bool_decide_ext _ _ (Hs x Hx)).
    case_bool_decide; simpl; rewrite ?Hx; [by apply IH|].
    f_equal. by apply IH.
  - do 2 case_bool_decide; simpl; rewrite ?Hx; by apply IH.
Qed.

(** X13: merging into the worklist composes: merging one list and then
    another gives the worklist that merging their concatenation gives, and
    merging the same list a second time changes nothing. *)
Theorem merging_composes (current first second : list string) :
  mergedEnsAddresses (mergedEnsAddresses current first) second
  = mergedEnsAddresses current (first ++ second)
  ∧ mergedEnsAddresses (mergedEnsAddresses current first) first
    = mergedEnsAddresses current first.
Proof.
  split.
  - set (m := mergedEnsAddresses current first).
    assert (Hok : worklistOk m) by (split; [apply merged_valid | apply merged_NoDup]).
    rewrite (merged_appends m second Hok).
    unfold mergedEnsAddresses. rewrite filter_uniqueStrings.
    unfold dedup. rewrite app_assoc, dedupFrom_app, List.filter_app. simpl.
    f_equal.
    + subst m. unfold mergedEnsAddresses. by rewrite filter_uniqueStrings.
    + apply valid_dedupFrom_ext. intros a Ha. subst m.
      rewrite elem_of_merged, elem_of_app. tauto.
  - apply merged_stable; [apply merged_NoDup | apply merged_valid |].
    intros a Ha Hv. apply elem_of_merged. tauto.
Qed.

Lemma fetchEthAddressBook_resolved location addresses w b' result :
  getEthAddressBook location addresses (backend w) = (b', Js.Normal result) →
  let w' := (fetchEthAddressBook location addresses w).1 in
  addressBookOf (store w') location = result
  ∧ (∀ other, sameLocation location other = false →
       addressBookOf (store w') other = addressBookOf (store w) other)
  ∧ ensAddresses (store w') = ensAddresses (store w)
  ∧ ∃ requestedNames,
      calls w'
      = calls w ++ [GetEthAddressBook location addresses;
                    GetEthNames requestedNames]
      ∧ ∀ entry, entry ∈ result → address entry ∈ requestedNames.
Proof.
  intros Hresult. simpl. rewrite fetchEthAddressBook_run. simpl.
  rewrite Hresult.
  match goal with
  | |- context [fetchEthNames ?w0] =>
    destruct (fetchEthNames_frame w0) as (He & Hg & Hp & Hc & _)
  end.
  cbn [store] in *. split_and!.
  - destruct location; cbn [addressBookOf]; [by rewrite Hg | by rewrite Hp].
  - intros other Hother.
    destruct location, other; try done; cbn [addressBookOf];
      by rewrite ?Hp, ?Hg.
  - rewrite He. by destruct location.
  - eexists. split.
    { rewrite Hc. cbn [calls]. by rewrite <- app_assoc. }
    intros entry Hentry. unfold ethNamesAddresses.
    rewrite filter_uniqueStrings.
    destruct (dedup_union
      (map address (ethAddressBookGlobal (withAddressBook (store w) location result))
       ++ map address (ethAddressBookPrivate (withAddressBook (store w) location result))
       ++ ensAddresses (withAddressBook (store w) location result)))
      as [_ ->].
    rewrite !elem_of_app.
    destruct location; simpl; [left | right; left];
      by apply list_elem_of_fmap_2.
Qed.

(** X14: a fetch of an address book that succeeds replaces the mirror of
    its location by the entries received and leaves the other mirror and the
    worklist; it is followed by one names request, which covers the address
    of every entry received. *)
Theorem fetchEthAddressBook_success (location : EthAddressBookLocation)
    (addresses : option (list string)) (w : World B) (b' : B)
    (result : list EthNamesEntry) :
  getEthAddressBook location addresses (backend w) = (b', Js.Normal result) →
  let w' := (fetchEthAddressBook location addresses w).1 in
  addressBookOf (store w') location = result
  ∧ (∀ other, sameLocation location other = false →
       addressBookOf (store w') other = addressBookOf (store w) other)
  ∧ ensAddresses (store w') = ensAddresses (store w)
  ∧ ∃ requestedNames,
      calls w'
      = calls w ++ [GetEthAddressBook location addresses;
                    GetEthNames requestedNames]
      ∧ ∀ entry, entry ∈ result → address entry ∈ requestedNames.
Proof. apply fetchEthAddressBook_resolved. Qed.

(** X15: an address-book mutation that the backend reports as successful
    is followed by a fetch of the whole address book of its location (no
    address filter) and, when that fetch succeeds, by a names request: the
    mirror of the location then holds the entries the backend listed, and
    the names request covers their addresses.  The addition, the update
    and the deletion all end this way. *)
Theorem mutation_success_refetches (location : EthAddressBookLocation)
    (entries : list EthNamesEntry) (addresses : list string) (w : World B)
    (b1 b2 : B) (result : list EthNamesEntry) :
  getEthAddressBook location None b1 = (b2, Js.Normal result) →
  let ended (mutation : Call) (r : World B * Js.completion Thrown unit) :=
    r.2 = Js.Normal tt
    ∧ addressBookOf (store r.1) location = result
    ∧ ∃ requestedNames,
        calls r.1
        = calls w ++ [mutation; GetEthAddressBook location None;
                      GetEthNames requestedNames]
        ∧ ∀ entry, entry ∈ result → address entry ∈ requestedNames in
  (addAddressBook location entries (backend w) = (b1, Js.Normal true) →
   ended (AddAddressBook location entries)
     (addEthAddressBook location entries w))
  ∧ (updateAddressBook location entries (backend w) = (b1, Js.Normal true) →
     ended (UpdateAddressBook location entries)
       (updateEthAddressBook location entries w))
  ∧ (deleteAddressBook location addresses (backend w)
       = (b1, Js.Normal true) →
     ended (DeleteAddressBook location addresses)
       (deleteEthAddressBook location addresses w)).
Proof.
  intros Hbook ended.
  assert (Hend : ∀ mutation,
    ended mutation (fetchEthAddressBook location None (requested w mutation b1))).
  { intros mutation. subst ended. cbv beta.
    destruct (fetchEthAddressBook_resolved location None
                (requested w mutation b1) b2 result Hbook)
      as (Hmirror & _ & _ & names & Hcalls & Hcover).
    split_and!.
    - rewrite fetchEthAddressBook_run. simpl. rewrite Hbook.
      apply fetchEthNames_frame.
    - exact Hmirror.
    - exists names. split; [|exact Hcover].
      rewrite Hcalls. cbn [requested calls]. by rewrite <- app_assoc. }
  split_and!; intros Hb.
  - rewrite addEthAddressBook_run. simpl. rewrite Hb. apply Hend.
  - rewrite updateEthAddressBook_run. simpl. rewrite Hb. apply Hend.
  - rewrite deleteEthAddressBook_run. simpl. rewrite Hb. apply Hend.
Qed.

(** X16: [ethNameSelector] after [fetchEthNames]: with name display
    enabled it reads the address as a property of the mapping the backend
    returned when the request succeeded, and of the previous mapping when
    it failed; for an address that is not a name inherited from
    [Object.prototype] that is the name the mapping holds for it, or
    [null]; with name display disabled it answers [null] for every
    address. *)
Theorem ethNameSelector_after_fetch (w : World B) (addr : string) :
  let w' := (fetchEthNames w).1 in
  let current :=
    match (getEthNames (ethNamesAddresses (store w)) (backend w)).2 with
    | Js.Normal result => result
    | Js.Throw _ => ethNames (store w)
    end in
  ethNameSelector false (store w') addr = None
  ∧ ethNameSelector true (store w') addr = Js.objectGet current addr
  ∧ (addr ∉ Js.objectPrototypeKeys →
     ethNameSelector true (store w') addr = Js.Str <$> current !! addr)
  ∧ (addr ∈ Js.objectPrototypeKeys → current !! addr = None →
     ethNameSelector true (store w') addr = Some (Js.Inherited addr)).
Proof.
  simpl. rewrite fetchEthNames_run. simpl.
  assert (Hget : ∀ m : gmap string string,
    (addr ∉ Js.objectPrototypeKeys → Js.objectGet m addr = Js.Str <$> m !! addr)
    ∧ (addr ∈ Js.objectPrototypeKeys → m !! addr = None →
       Js.objectGet m addr = Some (Js.Inherited addr))).
  { intros m. unfold Js.objectGet. split.
    - intros Hown. destruct (m !! addr); [done|].
      by rewrite (bool_decide_eq_false_2 _ Hown).
    - intros Hin ->. by rewrite (bool_decide_eq_true_2 _ Hin). }
  destruct (getEthNames _ _) as [b' [result|e]]; simpl;
    unfold ethNameSelector; simpl; split_and!; try done; apply Hget.
Qed.

(** X17: [fetchEnsNames] resolves ENS names one way only: without
    [forceUpdate] it never uses the task requests, with [forceUpdate] it
    never uses the plain request; either way it issues at most three
    requests, at most one of them a names request, and that one last. *)
Theorem fetchEnsNames_requests (addresses : list string)
    (forceUpdate : bool) (w : World B) :
  let w' := (fetchEnsNames addresses forceUpdate w).1 in
  ∃ requests,
    calls w' = calls w ++ requests
    ∧ (length requests ≤ 3)%nat
    ∧ (forceUpdate = false → List.filter isTaskCall requests = [])
    ∧ (forceUpdate = true → List.filter isPlainEnsCall requests = [])
    ∧ (List.filter isGetEthNames requests = []
       ∨ ∃ front names,
           requests = front ++ [GetEthNames names]
           ∧ List.filter isGetEthNames front = []).
Proof.
  simpl. rewrite fetchEnsNames_run.
  set (merged := mergedEnsAddresses (ensAddresses (store w)) addresses).
  assert (Hnil : ∃ requests,
    calls w = calls w ++ requests
    ∧ (length requests ≤ 3)%nat
    ∧ (forceUpdate = false → List.filter isTaskCall requests = [])
    ∧ (forceUpdate = true → List.filter isPlainEnsCall requests = [])
    ∧ (List.filter isGetEthNames requests = []
       ∨ ∃ front names,
           requests = front ++ [GetEthNames names]
           ∧ List.filter isGetEthNames front = [])).
  { exists []. rewrite app_nil_r. simpl. split_and!; auto with lia. }
  case_bool_decide; [done|].
  destruct (negb forceUpdate && _); [done|].
  destruct (negb _); [done|].
  destruct forceUpdate.
  - destruct (getEnsNamesTask merged (backend w)) as [b1 [taskId|e1]].
    + destruct (awaitTask taskId b1) as [b2 [[]|e2]]; cbv zeta.
      * match goal with
        | |- context [fetchEthNames ?w0] =>
          destruct (fetchEthNames_frame w0) as (_ & _ & _ & -> & _)
        end.
        simpl. eexists. rewrite <- !app_assoc. split; [done|]. simpl.
        split_and!; [lia | done | done |].
        right. by eexists [GetEnsNamesTask merged; AwaitTask taskId], _.
      * simpl. eexists. rewrite <- !app_assoc. split; [done|]. simpl.
        split_and!; [lia | done | done | by left].
    + simpl. eexists. split; [done|]. simpl.
      split_and!; [lia | done | done | by left].
  - destruct (getEnsNames merged (backend w)) as [b1 [[]|e1]].
    + match goal with
      | |- context [fetchEthNames ?w0] =>
        destruct (fetchEthNames_frame w0) as (_ & _ & _ & -> & _)
      end.
      simpl. eexists. rewrite <- !app_assoc. split; [done|]. simpl.
      split_and!; [lia | done | done |].
      right. by eexists [GetEnsNames merged], _.
    + simpl. eexists. split; [done|]. simpl.
      split_and!; [lia | done | done | by left].
Qed.

End Facts.

Lemma fetches_never_reject_witness :
  let w := initialWorld tt in
  let e := ThrownError "offline" in
  (fetchEthNames (imports := Fixtures.offline) w).2 = Js.Normal tt
  ∧ (fetchEthAddressBook (imports := Fixtures.offline) global None w).2
    = Js.Normal tt
  ∧ (addEthAddressBook (imports := Fixtures.offline) global [] w).2
    = Js.Normal tt.
Proof.
  intros w e.
  destruct (fetches_never_reject (imports := Fixtures.offline) w)
    as (Hnames & Hbook & _).
  split; [exact Hnames|]. split; [exact (Hbook global None)|]. reflexivity.
Defined.

Lemma fetchEnsNames_rejection_witness :
  let w := initialWorld tt in
  let e := ThrownError "offline" in
  let merged :=
    mergedEnsAddresses (imports := Fixtures.offline)
      (ensAddresses (store w)) ["0xa1"] in
  let w' := (fetchEnsNames (imports := Fixtures.offline) ["0xa1"] false w).1 in
  (fetchEnsNames (imports := Fixtures.offline) ["0xa1"] false w).2 = Js.Throw e
  ∧ ethNames (store w') = ethNames (store w)
  ∧ ethAddressBookGlobal (store w') = ethAddressBookGlobal (store w)
  ∧ ethAddressBookPrivate (store w') = ethAddressBookPrivate (store w)
  ∧ logged w' = logged w
  ∧ notifications w' = notifications w
  ∧ List.filter EthNamesMoreSpec.isGetEthNames (added w w') = []
  ∧ ((false = false
      ∧ (@getEnsNames unit Fixtures.offline merged (backend w)).2 = Js.Throw e)
     ∨ (false = true
        ∧ ((@getEnsNamesTask unit Fixtures.offline merged (backend w)).2
             = Js.Throw e
           ∨ ∃ b1 taskId,
               @getEnsNamesTask unit Fixtures.offline merged (backend w)
                 = (b1, Js.Normal taskId)
               ∧ (@awaitTask unit Fixtures.offline taskId b1).2
                 = Js.Throw e))).
Proof.
  intros w e merged w'.
  assert (H : (fetchEnsNames (imports := Fixtures.offline) ["0xa1"] false w).2
              = Js.Throw e) by reflexivity.
  split; [exact H|].
  exact (fetchEnsNames_rejection (imports := Fixtures.offline) ["0xa1"] false
           w e H).
Defined.

Lemma mirrors_change_by_location_only_witness :
  let w := initialWorld tt in
  let op := AddEthAddressBook global [mkEntry "0xb0" "Bob"] in
  refetches op private = false
  ∧ addressBookOf (store (perform (imports := Fixtures.online) op w).1) private
    = addressBookOf (store w) private
  ∧ addressBookOf (store (perform (imports := Fixtures.online) op w).1) global
    = [mkEntry "0xb0" "Bob"].
Proof.
  intros w op.
  assert (H : refetches op private = false) by reflexivity.
  split; [exact H|]. split; [|reflexivity].
  exact (mirrors_change_by_location_only (imports := Fixtures.online) op w
           private H).
Defined.

Lemma fetchEthAddressBook_success_witness :
  let w := initialWorld tt in
  let result := [mkEntry "0xb0" "Bob"] in
  let w' :=
    (fetchEthAddressBook (imports := Fixtures.online) private None w).1 in
  @getEthAddressBook unit Fixtures.online private None (backend w)
    = (tt, Js.Normal result)
  ∧ addressBookOf (store w') private = result
  ∧ (∀ other, sameLocation private other = false →
       addressBookOf (store w') other = addressBookOf (store w) other)
  ∧ ensAddresses (store w') = ensAddresses (store w)
  ∧ ∃ requestedNames,
      calls w'
      = calls w ++ [GetEthAddressBook private None;
                    GetEthNames requestedNames]
      ∧ ∀ entry, entry ∈ result → address entry ∈ requestedNames.
Proof.
  intros w result w'.
  assert (H : @getEthAddressBook unit Fixtures.online private None (backend w)
              = (tt, Js.Normal result)) by reflexivity.
  split; [exact H|].
  exact (fetchEthAddressBook_success (imports := Fixtures.online) private None
           w tt result H).
Defined.

Lemma mutation_success_refetches_witness :
  let w := initialWorld tt in
  let bob := [mkEntry "0xb0" "Bob"] in
  let r := deleteEthAddressBook (imports := Fixtures.online) global ["0xb0"] w in
  @getEthAddressBook unit Fixtures.online global None tt
    = (tt, Js.Normal bob)
  ∧ @deleteAddressBook unit Fixtures.online global ["0xb0"] (backend w)
    = (tt, Js.Normal true)
  ∧ r.2 = Js.Normal tt
  ∧ addressBookOf (store r.1) global = bob
  ∧ ∃ requestedNames,
      calls r.1
      = calls w ++ [DeleteAddressBook global ["0xb0"];
                    GetEthAddressBook global None;
                    GetEthNames requestedNames]
      ∧ ∀ entry, entry ∈ bob → address entry ∈ requestedNames.
Proof.
  intros w bob r.
  assert (H1 : @getEthAddressBook unit Fixtures.online global None tt
               = (tt, Js.Normal bob)) by reflexivity.
  assert (H2 : @deleteAddressBook unit Fixtures.online global ["0xb0"]
                 (backend w) = (tt, Js.Normal true)) by reflexivity.
  split; [exact H1|]. split; [exact H2|].
  destruct (mutation_success_refetches (imports := Fixtures.online) global bob
              ["0xb0"] w tt tt bob H1) as (_ & _ & Hdelete).
  exact (Hdelete H2).
Defined.

Lemma fetchEnsNames_requests_witness :
  let w := initialWorld tt in
  let w' := (fetchEnsNames (imports := Fixtures.online) ["0xa1"] true w).1 in
  ∃ requests,
    calls w' = calls w ++ requests
    ∧ (length requests ≤ 3)%nat
    ∧ List.filter isPlainEnsCall requests = []
    ∧ requests
      = [GetEnsNamesTask ["0xa1"]; AwaitTask 1; GetEthNames ["0xa1"]].
Proof.
  intros w w'.
  destruct (fetchEnsNames_requests (imports := Fixtures.online) ["0xa1"] true w)
    as (requests & Hcalls & Hlen & _ & Hplain & _).
  exists requests. split; [exact Hcalls|]. split; [exact Hlen|].
  split; [exact (Hplain eq_refl)|].
  change (calls (initialWorld tt)) with (@nil Call) in Hcalls.
  rewrite app_nil_l in Hcalls. rewrite <- Hcalls. reflexivity.
Defined.

End EthNamesMore.

(** * Properties of the exchange settings panel *)

Module ExchangeSettingsFacts.

Import EthNamesStore ExchangeSettings.

Lemma findIndexFrom_cases {A} (predicate : A → bool) (l : list A) (i : nat) :
  (findIndexFrom predicate l i = (-1)%Z
   ∧ Forall (λ x, predicate x = false) l)
  ∨ ∃ k x,
      findIndexFrom predicate l i = Z.of_nat (i + k)
      ∧ l !! k = Some x
      ∧ predicate x = true
      ∧ Forall (λ y, predicate y = false) (take k l).
Proof.
  revert i. induction l as [|x l IH]; intros i; simpl.
  - left. by split.
  - destruct (predicate x) eqn:Hx.
    + right. exists 0, x. rewrite Nat.add_0_r. simpl. split_and!; try done.
    + destruct (IH (S i)) as [[Hnone Hall] | (k & y & Hk & Hy & Hpy & Hbefore)].
      * left. split; [done|]. by constructor.
      * right. exists (S k), y. simpl. split_and!; try done.
        -- rewrite Hk. f_equal. lia.
        -- by constructor.
Qed.

Section Facts.

Context {S : Type} `{imports : Imports S}.

Implicit Types (p : Panel S) (exchange item : Exchange).

Lemma sameExchange_iff exchange item :
  sameExchange exchange item = true
  ↔ name item = name exchange ∧ location item = location exchange.
Proof.
  unfold sameExchange. rewrite andb_true_iff, !String.eqb_eq. done.
Qed.

Lemma Forall_sameExchange_false exchange (l : list Exchange) :
  Forall (λ item, sameExchange exchange item = false) l
  ↔ ¬ ∃ item, item ∈ l ∧ name item = name exchange
              ∧ location item = location exchange.
Proof.
  rewrite Forall_forall. split.
  - intros Hall (item & Hin & Hsame). apply sameExchange_iff in Hsame.
    specialize (Hall item Hin). congruence.
  - intros Hnone item Hin.
    destruct (sameExchange exchange item) eqn:Hs; [|done].
    destruct Hnone. exists item. split; [done|]. by apply sameExchange_iff.
Qed.

Lemma isNonSyncExchange_cond p exchange :
  isNonSyncExchange p exchange = true
  ↔ ∃ item, item ∈ nonSyncingExchanges p
            ∧ sameExchange exchange item = true.
Proof.
  unfold isNonSyncExchange, findNonSyncExchangeIndex, findIndex.
  destruct (findIndexFrom_cases (sameExchange exchange)
              (nonSyncingExchanges p) 0)
    as [[-> Hall] | (k & x & -> & Hx & Hpx & _)].
  - split; [done|]. intros (item & Hin & Hsame).
    rewrite Forall_forall in Hall. specialize (Hall item Hin). congruence.
  - split; [intros _ | intros _; apply Z.ltb_lt; lia].
    exists x. split; [by eapply list_elem_of_lookup_2 | done].
Qed.

Lemma isNonSyncExchange_none p exchange :
  Forall (λ item, sameExchange exchange item = false) (nonSyncingExchanges p) →
  isNonSyncExchange p exchange = false.
Proof.
  intros Hall. apply not_true_iff_false.
  intros (item & Hin & Hsame)%isNonSyncExchange_cond.
  rewrite Forall_forall in Hall. specialize (Hall item Hin). congruence.
Qed.

Lemma isNonSyncExchange_some p exchange item :
  item ∈ nonSyncingExchanges p → sameExchange exchange item = true →
  isNonSyncExchange p exchange = true.
Proof. intros Hin Hsame. apply isNonSyncExchange_cond. eauto. Qed.

(** X18: an exchange counts as non-syncing exactly when the local list
    holds an entry with its name and location; the other properties of the
    entry do not matter. *)
Theorem isNonSyncExchange_iff (p : Panel S) (exchange : Exchange) :
  isNonSyncExchange p exchange = true
  ↔ ∃ item, item ∈ nonSyncingExchanges p
            ∧ name item = name exchange
            ∧ location item = location exchange.
Proof.
  unfold isNonSyncExchange, findNonSyncExchangeIndex, findIndex.
  destruct (findIndexFrom_cases (sameExchange exchange)
              (nonSyncingExchanges p) 0)
    as [[-> Hall] | (k & x & -> & Hx & Hpx & _)].
  - apply Forall_sameExchange_false in Hall. split; [done|]. tauto.
  - split; [intros _ | intros _; apply Z.ltb_lt; lia].
    exists x. split; [by eapply list_elem_of_lookup_2|].
    by apply sameExchange_iff.
Qed.

Lemma spliceFrom_index {A} (l : list A) (k : nat) :
  k < length l → spliceFrom (Z.of_nat k) l = take k l.
Proof.
  intros Hk. unfold spliceFrom.
  destruct (Z.ltb_spec (Z.of_nat k) 0); [lia|].
  f_equal. lia.
Qed.

(** The list [toggleSync] sends, by cases. *)
Lemma toggledData_cases p exchange :
  let l := nonSyncingExchanges p in
  (Forall (λ item, sameExchange exchange item = false) l
   ∧ toggledData p exchange
     = (l ++ [mkExchange (location exchange) (name exchange) []], true))
  ∨ ∃ k item,
      l !! k = Some item
      ∧ sameExchange exchange item = true
      ∧ Forall (λ y, sameExchange exchange y = false) (take k l)
      ∧ toggledData p exchange = (take k l, false).
Proof.
  intros l. unfold toggledData, findNonSyncExchangeIndex, findIndex.
  fold l.
  destruct (findIndexFrom_cases (sameExchange exchange) l 0)
    as [[-> Hall] | (k & x & -> & Hx & Hpx & Hbefore)].
  - left. by split.
  - right. exists k, x.
    destruct (Z.ltb_spec (-1) (Z.of_nat (0 + k))); [|lia].
    rewrite Nat.add_0_l, spliceFrom_index by (by eapply lookup_lt_Some).
    done.
Qed.

Lemma toggleSync_updates exchange p :
  updates (toggleSync exchange p).1
  = updates p ++ [(toggledData p exchange).1].
Proof.
  unfold toggleSync. destruct (toggledData p exchange) as [data enable].
  by destruct (update data (settings p)) as [s' [status|e]].
Qed.

(** X19: what [toggleSync] sends to the settings.  For an exchange that
    is not on the list, the list with a new entry of its location and name
    appended.  For an exchange on the list, the list cut at its first
    matching entry: the entry at the cut matches, no entry before it does,
    and that entry and every entry after it are left out. *)
Theorem toggleSync_payload (exchange : Exchange) (p : Panel S) :
  let l := nonSyncingExchanges p in
  ∃ data,
    updates (toggleSync exchange p).1 = updates p ++ [data]
    ∧ ((isNonSyncExchange p exchange = false
        ∧ data = l ++ [mkExchange (location exchange) (name exchange) []])
       ∨ (isNonSyncExchange p exchange = true
          ∧ ∃ k item,
              l !! k = Some item
              ∧ name item = name exchange
              ∧ location item = location exchange
              ∧ (∀ j earlier,
                   (j < k)%nat → l !! j = Some earlier →
                   ¬ (name earlier = name exchange
                      ∧ location earlier = location exchange))
              ∧ data = take k l
              ∧ length data = k)).
Proof.
  intros l. exists (toggledData p exchange).1.
  split; [apply toggleSync_updates|].
  destruct (toggledData_cases p exchange)
    as [[Hall ->] | (k & item & Hk & Hsame & Hbefore & ->)]; simpl.
  - left. split; [by apply isNonSyncExchange_none | done].
  - right. split.
    + eapply isNonSyncExchange_some; [by eapply list_elem_of_lookup_2 | done].
    + exists k, item. apply sameExchange_iff in Hsame as [? ?].
      split_and!; try done.
      * intros j earlier Hj Hearlier Hmatch.
        apply sameExchange_iff in Hmatch.
        rewrite Forall_forall in Hbefore.
        rewrite (Hbefore earlier) in Hmatch; [done|].
        apply (list_elem_of_lookup_2 _ j). by rewrite lookup_take_lt.
      * apply lookup_lt_Some in Hk. rewrite length_take. lia.
Qed.

(** X20: toggling flips the exchange: on the list [toggleSync] sends, the
    exchange is listed exactly when it was not listed before. *)
Theorem toggleSync_flips (exchange : Exchange) (p : Panel S) :
  ∃ data,
    updates (toggleSync exchange p).1 = updates p ++ [data]
    ∧ isNonSyncExchange
        (mkPanel data (settings p) (updates p) (notifications p)) exchange
      = negb (isNonSyncExchange p exchange).
Proof.
  exists (toggledData p exchange).1.
  split; [apply toggleSync_updates|].
  destruct (toggledData_cases p exchange)
    as [[Hall ->] | (k & item & Hk & Hsame & Hbefore & ->)]; simpl.
  - rewrite (isNonSyncExchange_none p) by done. simpl.
    eapply isNonSyncExchange_some.
    + simpl. apply elem_of_app. right. by left.
    + unfold sameExchange. simpl. by rewrite !String.eqb_refl.
  - rewrite (isNonSyncExchange_some p exchange item);
      [|by eapply list_elem_of_lookup_2|done].
    simpl. by apply isNonSyncExchange_none.
Qed.

(** X21: how [toggleSync] ends.  When the update resolves, the local list
    becomes the [nonSyncingExchanges] setting as the settings store then has
    it, whether the update succeeded or not, and a notification is raised
    exactly when the status reports failure.  When the update rejects,
    [toggleSync] rejects with the same value and the local list stays. *)
Theorem toggleSync_outcome (exchange : Exchange) (p : Panel S) :
  let data := (toggledData p exchange).1 in
  let p' := (toggleSync exchange p).1 in
  match update data (settings p) with
  | (settings', Js.Normal status) =>
    (toggleSync exchange p).2 = Js.Normal tt
    ∧ settings p' = settings'
    ∧ nonSyncingExchanges p' = current settings'
    ∧ (success status = true → notifications p' = notifications p)
    ∧ (success status = false →
       ∃ n, notifications p' = notifications p ++ [n]
            ∧ notifiedLocation n = location exchange
            ∧ notifiedName n = name exchange
            ∧ notifiedMessage n = message status)
  | (settings', Js.Throw e) =>
    (toggleSync exchange p).2 = Js.Throw e
    ∧ settings p' = settings'
    ∧ nonSyncingExchanges p' = nonSyncingExchanges p
    ∧ notifications p' = notifications p
  end.
Proof.
  simpl. unfold toggleSync.
  destruct (toggledData p exchange) as [data enable]. simpl.
  destruct (update data (settings p)) as [s' [status|e]]; simpl; [|done].
  split_and!; try done.
  - by intros ->.
  - intros ->. simpl. by eexists.
Qed.

End Facts.

Lemma toggleSync_outcome_witness :
  let p := MoreFixtures.panel in
  let e := MoreFixtures.binance in
  let p' := (toggleSync (imports := MoreFixtures.refusingSettings) e p).1 in
  @update _ MoreFixtures.refusingSettings [MoreFixtures.kraken] (settings p)
    = (settings p, Js.Normal (mkStatus false (Some "denied")))
  ∧ (toggleSync (imports := MoreFixtures.refusingSettings) e p).2
    = Js.Normal tt
  ∧ nonSyncingExchanges p' = [MoreFixtures.kraken; MoreFixtures.binance]
  ∧ updates p' = [[MoreFixtures.kraken]]
  ∧ ∃ n, notifications p' = notifications p ++ [n]
         ∧ notifiedLocation n = location e
         ∧ notifiedName n = name e
         ∧ notifiedMessage n = Some "denied".
Proof.
  intros p e p'.
  pose proof (toggleSync_outcome (imports := MoreFixtures.refusingSettings) e p)
    as H.
  change (@update _ MoreFixtures.refusingSettings
            (toggledData p e).1 (settings p))
    with (settings p, Js.Normal (mkStatus false (Some "denied"))) in H.
  cbv iota beta zeta in H.
  destruct H as (Hres & _ & Hlist & _ & Hnote).
  split; [reflexivity|]. split; [exact Hres|]. split; [exact Hlist|].
  split; [reflexivity|]. exact (Hnote eq_refl).
Defined.

Example toggleSync_drops_later_entries :
  let p' :=
    (toggleSync (imports := MoreFixtures.acceptingSettings)
       MoreFixtures.kraken MoreFixtures.panel).1 in
  updates p' = [[]] ∧ nonSyncingExchanges p' = [].
Proof. split; reflexivity. Qed.

End ExchangeSettingsFacts.

(** * Properties of the token details fetch, the chain classes and the
    snapshot import *)

Module TokenDetailsFacts.

Import EthNamesStore TokenDetails.

Section Facts.

Context {B T : Type} `{imports : Imports B T}.

(** X22: [fetchTokenDetails] turns failures into an empty token.  When
    the request and its task resolve, the result of the task is returned and
    nothing is notified.  When the request rejects, the task is not waited
    for.  When the request or the wait rejects with a value that is not
    nullish, the empty token is returned and one notification is raised, for
    the address and with the [message] property of the value. *)
Theorem fetchTokenDetails_outcome (address : string) (w : World B) :
  let r := fetchTokenDetails address w in
  (∀ b1 taskId b2 result,
     erc20details address (backend w) = (b1, Js.Normal taskId) →
     awaitTask taskId b1 = (b2, Js.Normal result) →
     r = (mkWorld b2
            (calls w ++ [Erc20Details address; AwaitErc20Task taskId address])
            (notifications w),
          Js.Normal result))
  ∧ (∀ b1 e,
       erc20details address (backend w) = (b1, Js.Throw e) →
       calls r.1 = calls w ++ [Erc20Details address])
  ∧ (∀ e message,
       messageProperty e = Js.Normal message →
       (erc20details address (backend w)).2 = Js.Throw e
       ∨ (∃ b1 taskId,
            erc20details address (backend w) = (b1, Js.Normal taskId)
            ∧ (awaitTask taskId b1).2 = Js.Throw e) →
       r.2 = Js.Normal emptyToken
       ∧ notifications r.1
         = notifications w ++ [mkErrorNotification address message true]).
Proof.
  simpl. unfold fetchTokenDetails. split_and!.
  - intros b1 taskId b2 result -> ->. cbn [calls notifications].
    by rewrite <- app_assoc.
  - intros b1 e ->. by destruct (messageProperty e).
  - intros e message Hm [Hreq | (b1 & taskId & Hreq & Hwait)].
    + destruct (erc20details address (backend w)) as [b1 r1].
      simpl in Hreq. subst r1. by rewrite Hm.
    + rewrite Hreq. destruct (awaitTask taskId b1) as [b2 r2].
      simpl in Hwait. subst r2. by rewrite Hm.
Qed.

End Facts.

Lemma fetchTokenDetails_outcome_witness :
  let w := mkWorld tt [] [] in
  let r := fetchTokenDetails (imports := MoreFixtures.timingOut) "0xABC" w in
  messageProperty (ThrownError "timeout") = Js.Normal (Some "timeout")
  ∧ (∃ b1 taskId,
       @erc20details unit _ MoreFixtures.timingOut "0xABC" (backend w)
         = (b1, Js.Normal taskId)
       ∧ (@awaitTask unit _ MoreFixtures.timingOut taskId b1).2
         = Js.Throw (ThrownError "timeout"))
  ∧ r.2 = Js.Normal None
  ∧ notifications r.1
    = notifications w ++ [mkErrorNotification "0xABC" (Some "timeout") true].
Proof.
  intros w r.
  assert (H1 : messageProperty (ThrownError "timeout")
               = Js.Normal (Some "timeout")) by reflexivity.
  assert (H2 : ∃ b1 taskId,
    @erc20details unit _ MoreFixtures.timingOut "0xABC" (backend w)
      = (b1, Js.Normal taskId)
    ∧ (@awaitTask unit _ MoreFixtures.timingOut taskId b1).2
      = Js.Throw (ThrownError "timeout")).
  { exists tt, 7. split; reflexivity. }
  split; [exact H1|]. split; [exact H2|].
  destruct (fetchTokenDetails_outcome (imports := MoreFixtures.timingOut)
              "0xABC" w) as (_ & _ & H).
  exact (H (ThrownError "timeout") (Some "timeout") H1 (or_intror H2)).
Defined.

End TokenDetailsFacts.

Module ChainsFacts.

Import Chains.

Section Facts.

Context `{blockchain : BlockchainEnum}.

(** X23: when the eight enum members the classes name are distinct, the
    classes do not overlap: no chain is classified as two of BTC-like,
    ETH-like and rest; and every token chain is ETH-like or rest. *)
Theorem chain_classes_disjoint (chain : string) :
  NoDup [BTC; BCH; ETH; ETH2; KSM; DOT; AVAX; OPTIMISM] →
  (isBtcChain chain && isEthChain chain = false)
  ∧ (isBtcChain chain && isRestChain chain = false)
  ∧ (isEthChain chain && isRestChain chain = false)
  ∧ (isTokenChain chain = true →
     isEthChain chain || isRestChain chain = true).
Proof.
  intros Hnd.
  repeat (apply NoDup_cons in Hnd as [? Hnd]).
  unfold isBtcChain, isEthChain, isRestChain, isTokenChain, includes,
    BtcChains, EthChains, RestChains, TokenChains.
  split_and!.
  - do 2 (case_bool_decide; [|by rewrite ?andb_false_r]).
    exfalso. set_unfold. intuition congruence.
  - do 2 (case_bool_decide; [|by rewrite ?andb_false_r]).
    exfalso. set_unfold. intuition congruence.
  - do 2 (case_bool_decide; [|by rewrite ?andb_false_r]).
    exfalso. set_unfold. intuition congruence.
  - rewrite orb_true_iff, !bool_decide_eq_true.
    set_unfold. tauto.
Qed.

End Facts.

Lemma chain_classes_disjoint_witness :
  let _ := MoreFixtures.blockchains in
  NoDup [BTC; BCH; ETH; ETH2; KSM; DOT; AVAX; OPTIMISM]
  ∧ (isBtcChain "ETH" && isEthChain "ETH" = false)
  ∧ (isBtcChain "ETH" && isRestChain "ETH" = false)
  ∧ (isEthChain "ETH" && isRestChain "ETH" = false)
  ∧ (isTokenChain "ETH" = true →
     isEthChain "ETH" || isRestChain "ETH" = true).
Proof.
  intros blockchain.
  assert (H : NoDup [BTC; BCH; ETH; ETH2; KSM; DOT; AVAX; OPTIMISM]).
  { apply NoDup_ListNoDup. vm_compute.
    repeat constructor; simpl; intuition discriminate. }
  split; [exact H|].
  exact (chain_classes_disjoint (blockchain := MoreFixtures.blockchains) "ETH" H).
Defined.

End ChainsFacts.

Module SnapshotImportFacts.

Import EthNamesStore SnapshotImport.

Section Facts.

Context {B File : Type} `{imports : Imports B File}.

(** X24: [importSnapshot] does nothing unless both files are chosen.  With
    both chosen it makes one api call, by paths in an app session and by
    files otherwise.  Whether the call resolves or rejects (with a value
    that is not nullish), it ends with both files cleared and the loading
    flag off and shows one message; the message is marked as a success and
    a logout is scheduled after 3000 ms exactly when the call resolved. *)
Theorem importSnapshot_outcome (c : Component B File) :
  (importFilesCompleted c = false → importSnapshot c = (c, Js.Normal tt))
  ∧ ∀ balanceFile locationFile,
      balanceSnapshotFile c = Some balanceFile →
      locationDataSnapshotFile c = Some locationFile →
      let call :=
        if appSession
        then ImportBalancesSnapshot (path balanceFile) (path locationFile)
        else UploadBalancesSnapshot balanceFile locationFile in
      let answer :=
        if appSession
        then importBalancesSnapshot (path balanceFile) (path locationFile)
               (backend c)
        else uploadBalancesSnapshot balanceFile locationFile (backend c) in
      let c' := (importSnapshot c).1 in
      let ended (m : Message) :=
        (importSnapshot c).2 = Js.Normal tt
        ∧ balanceSnapshotFile c' = None
        ∧ locationDataSnapshotFile c' = None
        ∧ importSnapshotLoading c' = false
        ∧ messages c' = messages c ++ [m] in
      apiCalls c' = apiCalls c ++ [call]
      ∧ backend c' = answer.1
      ∧ match answer.2 with
        | Js.Normal _ =>
          ∃ m, ended m ∧ success m = Some true
               ∧ logoutTimers c' = logoutTimers c ++ [3000]
        | Js.Throw e =>
          ∀ message,
            TokenDetails.messageProperty e = Js.Normal message →
            ∃ m, ended m ∧ success m = None
                 ∧ descriptionMessage m = message
                 ∧ logoutTimers c' = logoutTimers c
        end.
Proof.
  split.
  - unfold importFilesCompleted, importSnapshot.
    by destruct (balanceSnapshotFile c), (locationDataSnapshotFile c).
  - intros balanceFile locationFile Hb Hl. simpl.
    unfold importSnapshot. rewrite Hb, Hl.
    destruct appSession.
    + destruct (importBalancesSnapshot _ _ _) as [b' [[]|e]]; simpl.
      * split_and!; try done. by eexists.
      * destruct (TokenDetails.messageProperty e) as [message|t] eqn:Hm;
          simpl; (split_and!; [done | done |]).
        -- intros ? [= <-]. eexists. by rewrite app_nil_r.
        -- done.
    + destruct (uploadBalancesSnapshot _ _ _) as [b' [[]|e]]; simpl.
      * split_and!; try done. by eexists.
      * destruct (TokenDetails.messageProperty e) as [message|t] eqn:Hm;
          simpl; (split_and!; [done | done |]).
        -- intros ? [= <-]. eexists. by rewrite app_nil_r.
        -- done.
Qed.

End Facts.

Lemma importSnapshot_outcome_witness :
  let c := MoreFixtures.chosen in
  let c' := (importSnapshot (imports := MoreFixtures.refusedImport) c).1 in
  balanceSnapshotFile c = Some "/tmp/balances.csv"
  ∧ locationDataSnapshotFile c = Some "/tmp/locations.csv"
  ∧ TokenDetails.messageProperty (ThrownError "bad snapshot")
    = Js.Normal (Some "bad snapshot")
  ∧ apiCalls c'
    = [ImportBalancesSnapshot "/tmp/balances.csv" "/tmp/locations.csv"]
  ∧ ∃ m,
      ((importSnapshot (imports := MoreFixtures.refusedImport) c).2
         = Js.Normal tt
       ∧ balanceSnapshotFile c' = None
       ∧ locationDataSnapshotFile c' = None
       ∧ importSnapshotLoading c' = false
       ∧ messages c' = messages c ++ [m])
      ∧ success m = None
      ∧ descriptionMessage m = Some "bad snapshot"
      ∧ logoutTimers c' = logoutTimers c.
Proof.
  intros c c'.
  destruct (importSnapshot_outcome (imports := MoreFixtures.refusedImport) c)
    as (_ & H).
  specialize (H "/tmp/balances.csv" "/tmp/locations.csv" eq_refl eq_refl).
  cbv zeta in H. destruct H as (Hcalls & _ & Hfail).
  split; [reflexivity|]. split; [reflexivity|]. split; [reflexivity|].
  split; [exact Hcalls|].
  exact (Hfail (Some "bad snapshot") eq_refl).
Defined.

End SnapshotImportFacts.
